(** * Verification of the ingestion pipeline and the LLM client

    Shallow embedding of [src/io_utils/pre_processor.py],
    [src/generation_utils/llm_client.py], [src/generation_utils/generator.py]
    and [src/generation_utils/schema.py].

    Layout: the definitions (one module per Python module, preceded by the
    Python runtime pieces they lean on) come first, the theorems follow. *)

From Stdlib Require Import ZArith NArith Ascii String Lia Bool.
From stdpp Require Import base decidable list gmap strings.

Local Open Scope Z_scope.

(* ===================================================================== *)
(** * Python runtime: [str], exceptions                                   *)
(* ===================================================================== *)

(** A Python [str] is a sequence of code points.  A character is an
    [ascii], read as the code point U+0000..U+00FF; every function below is
    written for that range. *)
Module PyStr.

Definition str := list ascii.

Definition lit (s : string) : str := list_ascii_of_string s.

Definition ord (c : ascii) : N := N_of_ascii c.

Definition chr_eqb (a b : ascii) : bool := Ascii.eqb a b.

(** [str.isspace] on one character, the set used by [str.strip()]:
    U+0009..U+000D, U+001C..U+0020, U+0085, U+00A0. *)
Definition isspace (c : ascii) : bool :=
  let n := ord c in
  ((9 <=? n) && (n <=? 13) || (28 <=? n) && (n <=? 32)
   || (n =? 133) || (n =? 160))%N.

(** [str.lower] on one character: A..Z and the Latin-1 capitals
    U+00C0..U+00DE (U+00D7, the multiplication sign, is not a letter). *)
Definition lower_chr (c : ascii) : ascii :=
  let n := ord c in
  if ((65 <=? n) && (n <=? 90)
      || (192 <=? n) && (n <=? 222) && negb (n =? 215))%N
  then ascii_of_N (n + 32) else c.

Definition lower (s : str) : str := map lower_chr s.

(** [sep.join(parts)] *)
Fixpoint join (sep : str) (parts : list str) : str :=
  match parts with
  | [] => []
  | [p] => p
  | p :: rest => p ++ sep ++ join sep rest
  end.

(** [s.lstrip()], [s.rstrip()], [s.strip()] *)
Fixpoint lstrip (s : str) : str :=
  match s with
  | [] => []
  | c :: r => if isspace c then lstrip r else s
  end.
Definition rstrip (s : str) : str := rev (lstrip (rev s)).
Definition strip (s : str) : str := rstrip (lstrip s).

(** [sub in s] *)
Fixpoint startswith (p s : str) : bool :=
  match p, s with
  | [], _ => true
  | _ :: _, [] => false
  | a :: p', b :: s' => chr_eqb a b && startswith p' s'
  end.

Fixpoint contains (sub s : str) : bool :=
  startswith sub s ||
  match s with
  | [] => false
  | _ :: s' => contains sub s'
  end.

(** [s[i:]] with Python's treatment of a negative or too large start. *)
Definition slice_from (s : str) (i : Z) : str :=
  let n := Z.of_nat (length s) in
  let start := if i <? 0 then Z.max (n + i) 0 else Z.min i n in
  drop (Z.to_nat start) s.

(** [str(n)] for a natural number: decimal digits, most significant first.
    The fuel is the number itself, which bounds its number of digits. *)
Fixpoint digits_fuel (fuel : nat) (n : N) (acc : str) : str :=
  match fuel with
  | O => acc
  | S fuel' =>
      let d := ascii_of_N (48 + n mod 10) in
      if (n <? 10)%N then d :: acc else digits_fuel fuel' (n / 10)%N (d :: acc)
  end.

Definition str_of_nat (n : nat) : str :=
  digits_fuel (S n) (N.of_nat n) [].

(** [s.encode("utf-8")]: one byte below U+0080, two bytes up to U+00FF. *)
Definition utf8_chr (c : ascii) : list N :=
  let n := ord c in
  if (n <? 128)%N then [n]
  else [N.lor 192 (N.shiftr n 6); N.lor 128 (N.land n 63)].

Definition encode_utf8 (s : str) : list N := flat_map utf8_chr s.

End PyStr.

Import PyStr.

(** What a Python call does: it returns a value or raises.  Only exceptions
    below [Exception] are modelled ([except Exception] catches all of them). *)
Inductive exn : Type :=
  | ValueError (msg : str)
  | ImportError (msg : str)
  | NotImplementedError (msg : str)
  | UnicodeDecodeError (msg : str)
  | OtherError (msg : str).

Inductive outcome (A : Type) : Type :=
  | Returned (a : A)
  | Raised (e : exn).
Arguments Returned {A} a.
Arguments Raised {A} e.

(** [str(e)] *)
Definition exn_msg (e : exn) : str :=
  match e with
  | ValueError m | ImportError m | NotImplementedError m
  | UnicodeDecodeError m | OtherError m => m
  end.

(** Code that acts on a state [S] (what was printed, what was sent, what is
    stored) and returns or raises. *)
Definition eff (S A : Type) : Type := S -> outcome A * S.

Definition eff_ret {S A} (a : A) : eff S A := fun s => (Returned a, s).
Definition eff_raise {S A} (e : exn) : eff S A := fun s => (Raised e, s).
Definition eff_lift {S A} (o : outcome A) : eff S A := fun s => (o, s).
Definition eff_bind {S A B} (m : eff S A) (k : A -> eff S B) : eff S B :=
  fun s => match m s with
           | (Returned a, s') => k a s'
           | (Raised e, s') => (Raised e, s')
           end.

(** [try: body  except Exception as e: handler(e)] *)
Definition eff_try {S A} (body : eff S A) (handler : exn -> eff S A)
  : eff S A :=
  fun s => match body s with
           | (Returned a, s') => (Returned a, s')
           | (Raised e, s') => handler e s'
           end.

Declare Scope eff_scope.
Delimit Scope eff_scope with eff.
Notation "x <- c ;;; k" := (eff_bind c (fun x => k))
  (at level 100, c at next level, right associativity) : eff_scope.
Notation "c ;;; k" := (eff_bind c (fun _ => k))
  (at level 100, right associativity) : eff_scope.
Local Open Scope eff_scope.

(* ===================================================================== *)
(** * [hashlib.md5] (RFC 1321)                                            *)
(* ===================================================================== *)

Module MD5.
Local Open Scope N_scope.

Definition mask32 : N := 0xffffffff.
Definition add32 (a b : N) : N := N.land (a + b) mask32.
Definition not32 (a : N) : N := N.lxor a mask32.
Definition rotl32 (x c : N) : N :=
  N.land (N.lor (N.shiftl x c) (N.shiftr x (32 - c))) mask32.

(** Per-round left rotations. *)
Definition S_table : list N :=
  [7; 12; 17; 22; 7; 12; 17; 22; 7; 12; 17; 22; 7; 12; 17; 22;
   5;  9; 14; 20; 5;  9; 14; 20; 5;  9; 14; 20; 5;  9; 14; 20;
   4; 11; 16; 23; 4; 11; 16; 23; 4; 11; 16; 23; 4; 11; 16; 23;
   6; 10; 15; 21; 6; 10; 15; 21; 6; 10; 15; 21; 6; 10; 15; 21].

(** [K[i] = floor (2^32 * |sin (i + 1)|)]. *)
Definition K_table : list N :=
  [0xd76aa478; 0xe8c7b756; 0x242070db; 0xc1bdceee;
   0xf57c0faf; 0x4787c62a; 0xa8304613; 0xfd469501;
   0x698098d8; 0x8b44f7af; 0xffff5bb1; 0x895cd7be;
   0x6b901122; 0xfd987193; 0xa679438e; 0x49b40821;
   0xf61e2562; 0xc040b340; 0x265e5a51; 0xe9b6c7aa;
   0xd62f105d; 0x02441453; 0xd8a1e681; 0xe7d3fbc8;
   0x21e1cde6; 0xc33707d6; 0xf4d50d87; 0x455a14ed;
   0xa9e3e905; 0xfcefa3f8; 0x676f02d9; 0x8d2a4c8a;
   0xfffa3942; 0x8771f681; 0x6d9d6122; 0xfde5380c;
   0xa4beea44; 0x4bdecfa9; 0xf6bb4b60; 0xbebfbc70;
   0x289b7ec6; 0xeaa127fa; 0xd4ef3085; 0x04881d05;
   0xd9d4d039; 0xe6db99e5; 0x1fa27cf8; 0xc4ac5665;
   0xf4292244; 0x432aff97; 0xab9423a7; 0xfc93a039;
   0x655b59c3; 0x8f0ccc92; 0xffeff47d; 0x85845dd1;
   0x6fa87e4f; 0xfe2ce6e0; 0xa3014314; 0x4e0811a1;
   0xf7537e82; 0xbd3af235; 0x2ad7d2bb; 0xeb86d391].

(** Little-endian bytes of a word, and back. *)
Fixpoint le_bytes (count : nat) (w : N) : list N :=
  match count with
  | O => []
  | S c => N.land w 255 :: le_bytes c (N.shiftr w 8)
  end.

Fixpoint le_word (bs : list N) : N :=
  match bs with
  | [] => 0
  | b :: r => N.lor b (N.shiftl (le_word r) 8)
  end.

(** Padding: the bit 1, zeros up to 56 mod 64, the bit length on 64 bits. *)
Definition pad (msg : list N) : list N :=
  let len := N.of_nat (length msg) in
  let zeros := (119 - len mod 64) mod 64 in
  msg ++ [128] ++ repeat 0 (N.to_nat zeros)
      ++ le_bytes 8 (N.land (8 * len) 0xffffffffffffffff).

(** The sixteen 32-bit words of the next 64-byte block. *)
Fixpoint words (count : nat) (bs : list N) : list N :=
  match count with
  | O => []
  | S c => le_word (take 4 bs) :: words c (drop 4 bs)
  end.

Record regs : Type := Regs { rA : N; rB : N; rC : N; rD : N }.

Definition round (M : list N) (i : nat) (r : regs) : regs :=
  let '(Regs A B C D) := r in
  let i' := N.of_nat i in
  let '(F, g) :=
    if i' <? 16 then (N.lor (N.land B C) (N.land (not32 B) D), i')
    else if i' <? 32 then
      (N.lor (N.land D B) (N.land (not32 D) C), (5 * i' + 1) mod 16)
    else if i' <? 48 then (N.lxor B (N.lxor C D), (3 * i' + 5) mod 16)
    else (N.lxor C (N.lor B (not32 D)), (7 * i') mod 16) in
  let F' := add32 (add32 (add32 F A) (nth i K_table 0))
                  (nth (N.to_nat g) M 0) in
  Regs D (add32 B (rotl32 F' (nth i S_table 0))) B C.

Definition block (h : regs) (M : list N) : regs :=
  let r := fold_left (fun r i => round M i r) (seq 0 64) h in
  Regs (add32 (rA h) (rA r)) (add32 (rB h) (rB r))
       (add32 (rC h) (rC r)) (add32 (rD h) (rD r)).

Fixpoint blocks (count : nat) (h : regs) (bs : list N) : regs :=
  match count with
  | O => h
  | S c => blocks c (block h (words 16 (take 64 bs))) (drop 64 bs)
  end.

Definition init : regs := Regs 0x67452301 0xefcdab89 0x98badcfe 0x10325476.

(** [hashlib.md5(data).digest()] *)
Definition digest (msg : list N) : list N :=
  let p := pad msg in
  let h := blocks (length p / 64)%nat init p in
  le_bytes 4 (rA h) ++ le_bytes 4 (rB h) ++ le_bytes 4 (rC h)
    ++ le_bytes 4 (rD h).

Definition hex_digit (n : N) : ascii :=
  if n <? 10 then ascii_of_N (48 + n) else ascii_of_N (87 + n).

(** [hashlib.md5(data).hexdigest()] *)
Definition hexdigest (msg : list N) : str :=
  flat_map (fun b => [hex_digit (N.shiftr b 4); hex_digit (N.land b 15)])
           (digest msg).

End MD5.

(* ===================================================================== *)
(** * [src/io_utils/pre_processor.py]                                     *)
(* ===================================================================== *)

Module PreProcessor.

Definition NL : ascii := "010"%char.
Definition TAB : ascii := "009"%char.
Definition FF : ascii := "012"%char.
Definition SP : ascii := " "%char.

Definition is_nl (c : ascii) : bool := chr_eqb c NL.
Definition is_blank (c : ascii) : bool := chr_eqb c SP || chr_eqb c TAB.
Definition is_ff (c : ascii) : bool := chr_eqb c FF.

(** ** Regular expressions used by the module *)

(** Number of leading characters of [s] in the class. *)
Fixpoint run_length (cls : ascii -> bool) (s : str) : nat :=
  match s with
  | [] => O
  | c :: r => if cls c then S (run_length cls r) else O
  end.

(** [re.sub(pattern, repl, s)] for a pattern [cls{min,}] with [min >= 1]:
    matches are found left to right, greedy and without overlap, so a match
    starts at the first character of a maximal run of at least [min]
    characters of the class and covers the whole run.  [in_match] says
    that the scan is inside a run that has already been replaced. *)
Fixpoint re_sub_runs (cls : ascii -> bool) (min : nat) (repl : str)
    (in_match : bool) (s : str) : str :=
  match s with
  | [] => []
  | c :: r =>
      if cls c then
        if in_match then re_sub_runs cls min repl true r
        else if (min <=? run_length cls s)%nat
             then repl ++ re_sub_runs cls min repl true r
             else c :: re_sub_runs cls min repl false r
      else c :: re_sub_runs cls min repl false r
  end.

(** [re.sub(pattern, repl, s)] for a pattern that matches one character. *)
Definition re_sub_chr (cls : ascii -> bool) (repl : str) (s : str) : str :=
  flat_map (fun c => if cls c then repl else [c]) s.

(** [clean_text], lines 51-55. *)
Definition clean_text (text : str) : str :=
  let text := re_sub_runs is_nl 2 [NL] false text in
  let text := re_sub_runs is_blank 1 [SP] false text in
  let text := re_sub_chr is_ff [] text in
  strip text.

(** The first character of [s] is in the class. *)
Definition head_in (cls : ascii -> bool) (s : str) : bool :=
  match s with
  | [] => false
  | c :: _ => cls c
  end.

(** No two characters of the class stand side by side in [s]. *)
Definition no_adjacent (cls : ascii -> bool) (s : str) : Prop :=
  forall before a b after,
    s = before ++ a :: b :: after -> cls a = true -> cls b = true -> False.

(** ** [filter_noise], lines 58-68 *)

(** [s.split(sep)] for a one-character separator. *)
Fixpoint split_chr (sep : ascii) (s : str) : list str :=
  match s with
  | [] => [[]]
  | c :: r =>
      if chr_eqb c sep then [] :: split_chr sep r
      else match split_chr sep r with
           | [] => [[c]]
           | w :: ws => (c :: w) :: ws
           end
  end.

Definition is_digit (c : ascii) : bool :=
  ((48 <=? ord c) && (ord c <=? 57))%N.

(** [re.match(r'^\d+[\.\)]', s)] is not [None]. *)
Definition match_list_marker (s : str) : bool :=
  let n := run_length is_digit s in
  (1 <=? n)%nat &&
  match drop n s with
  | c :: _ => chr_eqb c "."%char || chr_eqb c ")"%char
  | [] => false
  end.

(** Characters with the Unicode property Uppercase, resp. Lowercase. *)
Definition chr_isupper (c : ascii) : bool :=
  let n := ord c in
  ((65 <=? n) && (n <=? 90) || (192 <=? n) && (n <=? 214)
   || (216 <=? n) && (n <=? 222))%N.

Definition chr_islower (c : ascii) : bool :=
  let n := ord c in
  ((97 <=? n) && (n <=? 122) || (n =? 170) || (n =? 181) || (n =? 186)
   || (223 <=? n) && (n <=? 246) || (248 <=? n) && (n <=? 255))%N.

(** [s.isupper()]: no lowercase character and at least one uppercase one. *)
Definition isupper (s : str) : bool :=
  forallb (fun c => negb (chr_islower c)) s && existsb chr_isupper s.

(** [s.upper()], as code points: the result can leave U+0000..U+00FF
    (U+00B5 gives U+039C, U+00FF gives U+0178) and U+00DF gives "SS". *)
Definition upper_chr (c : ascii) : list N :=
  let n := ord c in
  (if (97 <=? n) && (n <=? 122) then [n - 32]
   else if n =? 181 then [924]
   else if n =? 223 then [83; 83]
   else if (224 <=? n) && (n <=? 254) && negb (n =? 247) then [n - 32]
   else if n =? 255 then [376]
   else [n])%N.

Definition upper (s : str) : list N := flat_map upper_chr s.

Fixpoint startswithN (p s : list N) : bool :=
  match p, s with
  | [], _ => true
  | _ :: _, [] => false
  | a :: p', b :: s' => (a =? b)%N && startswithN p' s'
  end.

Fixpoint containsN (sub s : list N) : bool :=
  startswithN sub s ||
  match s with
  | [] => false
  | _ :: s' => containsN sub s'
  end.

(** The loop body: [true] when the line is kept. *)
Definition keep_line (ln : str) : bool :=
  let s := strip ln in
  if decide (s = []) then false
  else if match_list_marker s then false
  else if (length s <? 30)%nat && isupper s then false
  else if containsN (map ord (lit "REFERENCES")) (upper s)
          || containsN (map ord (lit "TABLE")) (upper s) then false
  else true.

Definition filter_noise (text : str) : str :=
  let lines := split_chr NL text in
  let clean_lines := List.filter keep_line lines in
  join [NL] clean_lines.

(** ** [_deduplicate_chunks], lines 71-79 *)

Definition md5_hex (c : str) : str := MD5.hexdigest (encode_utf8 c).

Record dedup_state : Type :=
  { seen : gset str; unique : list str }.

Definition dedup_step (st : dedup_state) (c : str) : dedup_state :=
  let h := md5_hex c in
  if decide (h ∈ seen st) then st
  else {| seen := {[h]} ∪ seen st; unique := unique st ++ [c] |}.

Definition _deduplicate_chunks (chunks : list str) : list str :=
  unique (fold_left dedup_step chunks {| seen := ∅; unique := [] |}).

(** The loop, started with a given [seen], as a recursive function. *)
Fixpoint dedup_from (seen : gset str) (chunks : list str) : list str :=
  match chunks with
  | [] => []
  | c :: rest =>
      if decide (md5_hex c ∈ seen) then dedup_from seen rest
      else c :: dedup_from ({[md5_hex c]} ∪ seen) rest
  end.

(** What the specification asks for: every distinct string once, in the
    order in which the strings are first seen. *)
Fixpoint first_seen (chunks : list str) : list str :=
  match chunks with
  | [] => []
  | c :: rest => c :: filter (fun x => x <> c) (first_seen rest)
  end.

(** No two different strings of the list have the same MD5 digest. *)
Definition md5_collision_free (chunks : list str) : bool :=
  forallb (fun a =>
    forallb (fun b =>
      implb (bool_decide (md5_hex a = md5_hex b)) (bool_decide (a = b)))
      chunks)
    chunks.

(** ** [chunk_text], lines 82-102 *)

Section Chunking.

(** [nltk.tokenize.sent_tokenize] and [tiktoken]'s [enc.encode] for the
    encoding named by [tokenizer_name]. *)
Variable sent_tokenize : str -> list str.
Variable enc_encode : str -> list N.

Variable max_tokens : Z.
Variable overlap : Z.

(** [len(enc.encode(s))] *)
Definition tokens (s : str) : Z := Z.of_nat (length (enc_encode s)).

Record chunk_state : Type :=
  { chunks : list str; current : list str; current_tokens : Z }.

(** [full_chunk[-overlap:] if len(full_chunk) > overlap else full_chunk] *)
Definition overlap_text (full_chunk : str) : str :=
  if Z.of_nat (length full_chunk) >? overlap
  then slice_from full_chunk (- overlap)
  else full_chunk.

(** Lines 92-97: close the current chunk and seed the next one. *)
Definition close_chunk (st : chunk_state) : chunk_state :=
  let full_chunk := join [SP] (current st) in
  let overlap_txt := overlap_text full_chunk in
  {| chunks := chunks st ++ [full_chunk];
     current := [overlap_txt];
     current_tokens := tokens overlap_txt |}.

(** The body of the loop of line 89. *)
Definition chunk_step (st : chunk_state) (sent : str) : chunk_state :=
  let sent_len := tokens sent in
  if sent_len >? max_tokens then st
  else
    let st' := if current_tokens st + sent_len >? max_tokens
               then close_chunk st else st in
    {| chunks := chunks st';
       current := current st' ++ [sent];
       current_tokens := current_tokens st' + sent_len |}.

Definition chunk_init : chunk_state :=
  {| chunks := []; current := []; current_tokens := 0 |}.

(** Line 101. *)
Definition chunk_finish (st : chunk_state) : list str :=
  match current st with
  | [] => chunks st
  | _ :: _ => chunks st ++ [join [SP] (current st)]
  end.

(** The chunks before deduplication, from the list of sentences. *)
Definition chunk_sentences (sentences : list str) : list str :=
  chunk_finish (fold_left chunk_step sentences chunk_init).

Definition chunk_text (text : str) : list str :=
  _deduplicate_chunks (chunk_sentences (sent_tokenize text)).

(** *** The same loop, remembering how each chunk was put together

    A piece keeps apart the overlap seed a chunk starts with (none for the
    first chunk) and the sentences appended to it. *)
Record piece : Type :=
  { seed : option str; sents : list str }.

Definition piece_parts (p : piece) : list str :=
  match seed p with
  | Some s => s :: sents p
  | None => sents p
  end.

Definition piece_text (p : piece) : str := join [SP] (piece_parts p).

(** Tokens of the sentences of a piece, each sentence encoded on its own. *)
Definition sentence_tokens (p : piece) : Z :=
  fold_right Z.add 0 (map tokens (sents p)).

(** Tokens of the overlap seed of a piece, encoded on its own. *)
Definition seed_tokens (p : piece) : Z :=
  match seed p with
  | Some s => tokens s
  | None => 0
  end.

Record piece_state : Type :=
  { p_chunks : list piece; p_current : piece; p_tokens : Z }.

Definition piece_close (st : piece_state) : piece_state :=
  let overlap_txt := overlap_text (piece_text (p_current st)) in
  {| p_chunks := p_chunks st ++ [p_current st];
     p_current := {| seed := Some overlap_txt; sents := [] |};
     p_tokens := tokens overlap_txt |}.

Definition piece_step (st : piece_state) (sent : str) : piece_state :=
  let sent_len := tokens sent in
  if sent_len >? max_tokens then st
  else
    let st' := if p_tokens st + sent_len >? max_tokens
               then piece_close st else st in
    {| p_chunks := p_chunks st';
       p_current := {| seed := seed (p_current st');
                       sents := sents (p_current st') ++ [sent] |};
       p_tokens := p_tokens st' + sent_len |}.

Definition piece_init : piece_state :=
  {| p_chunks := []; p_current := {| seed := None; sents := [] |};
     p_tokens := 0 |}.

Definition piece_finish (st : piece_state) : list piece :=
  match piece_parts (p_current st) with
  | [] => p_chunks st
  | _ :: _ => p_chunks st ++ [p_current st]
  end.

Definition chunk_pieces (sentences : list str) : list piece :=
  piece_finish (fold_left piece_step sentences piece_init).

(** Forgetting how the chunks were put together gives the state of the
    source. *)
Definition piece_erase (st : piece_state) : chunk_state :=
  {| chunks := map piece_text (p_chunks st);
     current := piece_parts (p_current st);
     current_tokens := p_tokens st |}.

End Chunking.

(** ** The world the ingestion functions act on *)

(** What the module prints, by kind of message. *)
Inductive log_event : Type :=
  | LogPdfNotFound (path : str)
  | LogPdfError (path : str) (e : exn)
  | LogSaved (n : nat)
  | LogNoDataDir (data_dir : str)
  | LogFound (n : nat)
  | LogProcessing (name : str)
  | LogComplete (collection_name : str) (count : nat).

Section Ingestion.

(** Embedding vectors, [model.encode(texts, convert_to_numpy=True)] for the
    model returned by [load_embedding_model], BeautifulSoup's
    [soup.get_text] after the tags of line 21 are removed, and the two
    libraries of [chunk_text].  [tiktoken_get_encoding name] is the [encode]
    of the encoding of that name. *)
Variable vector : Type.
Variable model_encode : list str -> list vector.
Variable html_get_text : str -> str.
Variable sent_tokenize : str -> list str.
Variable tiktoken_get_encoding : str -> str -> list N.

(** One call of [collection.add]. *)
Record batch : Type :=
  { ids : list str;
    embeddings : list vector;
    documents : list str;
    metadatas : list (list (str * str)) }.

Record world : Type :=
  { encoder_calls : list (list str);   (* argument of each [encode] call *)
    collection : list batch;           (* the [add] calls, oldest first *)
    printed : list log_event }.

(** Code that changes the world and returns or raises. *)
Definition M (A : Type) : Type := eff world A.

Definition print (ev : log_event) : M unit :=
  fun w => (Returned tt,
            {| encoder_calls := encoder_calls w;
               collection := collection w;
               printed := printed w ++ [ev] |}).

(** [for x in xs: body(x)]; an exception ends the loop. *)
Fixpoint for_each {A} (xs : list A) (body : A -> M unit) : M unit :=
  match xs with
  | [] => eff_ret tt
  | x :: r => body x ;;; for_each r body
  end.

(** A file found by [rglob]: its path below [data_dir], and what the
    operating system and the PDF library answer for it. *)
Record file : Type :=
  { f_parts : list str;               (* components of [relative_path] *)
    f_exists : bool;                  (* [os.path.exists(path)] *)
    f_read : outcome str;             (* [open(path, encoding="utf-8")], [f.read()] *)
    f_pdf_pages : outcome (list str)  (* [fitz.open(path)], [page.get_text] per page *) }.

(** [extract_text_from_html], lines 15-23. *)
Definition extract_text_from_html (f : file) : M str :=
  if negb (f_exists f) then eff_ret []
  else
    html <- eff_lift (f_read f) ;;;
    eff_ret (html_get_text html).

(** [extract_text_from_pdf], lines 26-49. *)
Definition extract_text_from_pdf (path : str) (f : file) : M str :=
  if negb (f_exists f) then
    print (LogPdfNotFound path) ;;; eff_ret []
  else
    eff_try (text_content <- eff_lift (f_pdf_pages f) ;;;
          eff_ret (strip (join [NL] text_content)))
         (fun e => print (LogPdfError path e) ;;; eff_ret []).

(** [embed_and_upsert], lines 107-120. *)
Definition embed_and_upsert (chunks : list str) (model_name : str)
    (source_filename : str) : M unit :=
  match chunks with
  | [] => eff_ret tt
  | _ :: _ =>
      let doc_prefix :=
        if contains (lit "e5") (lower model_name) then lit "passage: "
        else [] in
      let texts_to_embed := map (fun c => doc_prefix ++ c) chunks in
      fun w =>
        let embeddings := model_encode texts_to_embed in
        let ids :=
          map (fun i => source_filename ++ lit "_" ++ str_of_nat i)
              (seq 0 (length chunks)) in
        let metadatas :=
          repeat [(lit "dataset", source_filename)] (length chunks) in
        (Returned tt,
         {| encoder_calls := encoder_calls w ++ [texts_to_embed];
            collection := collection w ++
              [{| ids := ids; embeddings := embeddings;
                  documents := chunks; metadatas := metadatas |}];
            printed := printed w ++ [LogSaved (length chunks)] |})
  end.

(** [PurePath.suffix] of a file name. *)
Fixpoint rfind_chr (c : ascii) (s : str) (i : nat) : option nat :=
  match s with
  | [] => None
  | x :: r =>
      match rfind_chr c r (S i) with
      | Some j => Some j
      | None => if chr_eqb x c then Some i else None
      end
  end.

Definition suffix (name : str) : str :=
  match rfind_chr "."%char name 0 with
  | Some i =>
      if (0 <? i)%nat && (i <? length name - 1)%nat then drop i name else []
  | None => []
  end.

(** [s.replace(old, new)] for one-character strings. *)
Definition replace_chr (old new : ascii) (s : str) : str :=
  map (fun c => if chr_eqb c old then new else c) s.

(** [os.sep]. *)
Variable os_sep : ascii.

(** [file_path.suffix.lower()] and the readable source name of
    lines 152-153. *)
Definition file_ext (f : file) : str :=
  lower (suffix (List.last (f_parts f) [])).

Definition source_name (f : file) : str :=
  replace_chr "\"%char "/"%char (join [os_sep] (f_parts f)).

(** The world after some more lines are printed. *)
Definition log (evs : list log_event) (w : world) : world :=
  {| encoder_calls := encoder_calls w;
     collection := collection w;
     printed := printed w ++ evs |}.

Section Run.

Variables (data_dir : str) (collection_name : str)
          (embedding_model_name : str) (tokenizer_model : str)
          (chunk_size : Z) (chunk_overlap : Z).

(** The body of the loop of line 149. *)
Definition ingest_file (f : file) : M unit :=
  let relative_path := join [os_sep] (f_parts f) in
  let readable_source_name := source_name f in
  print (LogProcessing readable_source_name) ;;;
  let path := data_dir ++ [os_sep] ++ relative_path in
  let ext := file_ext f in
  let extracted :=
    if decide (ext = lit ".html") then Some (extract_text_from_html f)
    else if decide (ext = lit ".pdf") then Some (extract_text_from_pdf path f)
    else None in
  match extracted with
  | None => eff_ret tt
  | Some extract =>
      raw_text <- extract ;;;
      let clean_txt := clean_text raw_text in
      let filtered_txt := filter_noise clean_txt in
      let chunks :=
        chunk_text sent_tokenize (tiktoken_get_encoding tokenizer_model)
                   chunk_size chunk_overlap filtered_txt in
      embed_and_upsert chunks embedding_model_name readable_source_name
  end.

(** [collection.count()] *)
Definition count (w : world) : nat :=
  fold_right Nat.add O (map (fun b => length (ids b)) (collection w)).

(** [run_ingestion], lines 125-187.  [data_dir_exists] is
    [os.path.exists(data_dir)], [all_files] the files found by [rglob]. *)
Definition run_ingestion (data_dir_exists : bool) (all_files : list file)
  : M unit :=
  if negb data_dir_exists then print (LogNoDataDir data_dir)
  else
    print (LogFound (length all_files)) ;;;
    for_each all_files ingest_file ;;;
    fun w => print (LogComplete collection_name (count w)) w.

End Run.

End Ingestion.

Arguments ids {vector} _.
Arguments embeddings {vector} _.
Arguments documents {vector} _.
Arguments metadatas {vector} _.
Arguments encoder_calls {vector} _.
Arguments collection {vector} _.
Arguments printed {vector} _.
Arguments embed_and_upsert {vector} _ _ _ _ _.
Arguments extract_text_from_html {vector} _ _ _.
Arguments extract_text_from_pdf {vector} _ _ _.
Arguments ingest_file {vector} _ _ _ _ _ _ _ _ _ _ _ _.
Arguments run_ingestion {vector} _ _ _ _ _ _ _ _ _ _ _ _ _ _.
Arguments count {vector} _.
Arguments log {vector} _ _.

End PreProcessor.

(* ===================================================================== *)
(** * [src/generation_utils/schema.py]                                    *)
(* ===================================================================== *)

Module Schema.

Record DatasetSummary : Type :=
  { ds_name : option str; ds_summary : option str; ds_quote : option str }.

Record Response : Type :=
  { answer : option str;
    name_top : option str;
    supporting_datasets : list DatasetSummary }.

(** The [BaseModel] subclasses of the repository, as passed for
    [schema_model]. *)
Inductive schema_model : Type := ResponseModel | DatasetSummaryModel.

(** Python values the generation functions return. *)
Inductive pyobj : Type :=
  | PyNone
  | PyStr (s : str)
  | PyResponse (r : Response)
  | PyDatasetSummary (d : DatasetSummary).

(** [schema_model.model_construct()]: no validation, every field takes its
    declared default ([None], and [default_factory=list] gives []). *)
Definition model_construct (m : schema_model) : pyobj :=
  match m with
  | ResponseModel =>
      PyResponse {| answer := None; name_top := None;
                    supporting_datasets := [] |}
  | DatasetSummaryModel =>
      PyDatasetSummary {| ds_name := None; ds_summary := None;
                          ds_quote := None |}
  end.

(** [isinstance(v, schema_model)] *)
Definition instance_of (m : schema_model) (v : pyobj) : bool :=
  match m, v with
  | ResponseModel, PyResponse _ => true
  | DatasetSummaryModel, PyDatasetSummary _ => true
  | _, _ => false
  end.

(** Every field of the object is absent ([None]) or an empty list. *)
Definition all_fields_empty (v : pyobj) : bool :=
  match v with
  | PyResponse r =>
      match answer r, name_top r, supporting_datasets r with
      | None, None, [] => true
      | _, _, _ => false
      end
  | PyDatasetSummary d =>
      match ds_name d, ds_summary d, ds_quote d with
      | None, None, None => true
      | _, _, _ => false
      end
  | _ => false
  end.

End Schema.

(* ===================================================================== *)
(** * [src/generation_utils/llm_client.py]                                *)
(* ===================================================================== *)

Module LLMClient.
Import Schema.

Inductive backend : Type := Gemini | OpenAI | Anthropic | Groq.

Record message : Type := { role : str; content : str }.

(** What the client does to the outside, in order. *)
Inductive event : Type :=
  | EvLoadDotenv
  | EvGetKey (env_name secret_path : str)
  | EvNewClient (b : backend) (api_key : option str)
  | EvRequest (b : backend) (model_name : str) (messages : list message)
  | EvPrintConnected (provider model_name : str)
  | EvPrintStructuredError (e : exn).

(** The installed SDKs and the services behind them.  A request function
    gives what the source reads from the answer: [response.text],
    [res.choices[0].message.content], [res.content[0].text],
    [completion.choices[0].message.parsed]. *)
Record environment : Type :=
  { HAS_GEMINI : bool; HAS_OPENAI : bool; HAS_ANTHROPIC : bool;
    HAS_GROQ : bool;
    get_key : str -> str -> outcome (option str);
    new_client : backend -> option str -> outcome unit;
    gemini_generate_content :
      str -> str -> option schema_model -> outcome (option str);
    openai_chat_create : str -> list message -> outcome (option str);
    openai_chat_parse : str -> list message -> schema_model -> outcome pyobj;
    anthropic_messages_create : str -> list message -> outcome (option str);
    groq_chat_create : str -> list message -> bool -> outcome (option str);
    model_validate_json : schema_model -> option str -> outcome pyobj;
    json_loads_validate_Response : option str -> outcome pyobj }.

Record client : Type :=
  { provider : str; model_name : str; handle : option backend }.

(** The provider names [_init_client] knows. *)
Definition known_providers : list str :=
  [lit "gemini"; lit "openai"; lit "anthropic"; lit "groq"].

Section Client.

Variable env : environment.

(** Code that acts on the outside and returns or raises. *)
Definition IO (A : Type) : Type := eff (list event) A.

Definition emit (ev : event) : IO unit := fun t => (Returned tt, t ++ [ev]).

(** The branch of [_init_client] for one backend, lines 52-54 and alike. *)
Definition connect (has : bool) (pip : str) (env_name secret_path : str)
    (b : backend) : IO backend :=
  if negb has then eff_raise (ImportError pip)
  else
    emit (EvGetKey env_name secret_path) ;;;
    api_key <- eff_lift (get_key env env_name secret_path) ;;;
    emit (EvNewClient b api_key) ;;;
    eff_lift (new_client env b api_key) ;;;
    eff_ret b.

(** [_init_client], lines 46-72. *)
Definition _init_client (provider : str) : IO backend :=
  if decide (provider = lit "gemini") then
    connect (HAS_GEMINI env) (lit "Run `pip install google-genai`")
            (lit "GEMINI_API_KEY") (lit "gemini") Gemini
  else if decide (provider = lit "openai") then
    connect (HAS_OPENAI env) (lit "Run `pip install openai`")
            (lit "OPENAI_API_KEY") (lit "openai") OpenAI
  else if decide (provider = lit "anthropic") then
    connect (HAS_ANTHROPIC env) (lit "Run `pip install anthropic`")
            (lit "ANTHROPIC_API_KEY") (lit "anthropic") Anthropic
  else if decide (provider = lit "groq") then
    connect (HAS_GROQ env) (lit "Run `pip install groq`")
            (lit "GROQ_API_KEY") (lit "groq") Groq
  else eff_raise (ValueError (lit "Unknown provider: " ++ provider)).

(** [LLMClient.__init__], lines 39-44. *)
Definition __init__ (provider model_name : str) : IO client :=
  emit EvLoadDotenv ;;;
  let provider := lower provider in
  b <- _init_client provider ;;;
  emit (EvPrintConnected provider model_name) ;;;
  eff_ret {| provider := provider; model_name := model_name; handle := Some b |}.

Definition user_message (prompt : str) : message :=
  {| role := lit "user"; content := prompt |}.

(** Lines 85-87: the system instruction goes first when it is given and
    not empty. *)
Definition with_system (system_instruction : option str)
    (messages : list message) : list message :=
  match system_instruction with
  | Some (c :: r) => {| role := lit "system"; content := c :: r |} :: messages
  | _ => messages
  end.

(** [generate_text], lines 74-112. *)
Definition generate_text (self : client) (prompt : str)
    (system_instruction : option str) : IO (option str) :=
  eff_try
    (if decide (provider self = lit "gemini") then
       emit (EvRequest Gemini (model_name self) [user_message prompt]) ;;;
       eff_lift (gemini_generate_content env (model_name self) prompt None)
     else if decide (provider self = lit "openai") then
       let messages := with_system system_instruction [user_message prompt] in
       emit (EvRequest OpenAI (model_name self) messages) ;;;
       eff_lift (openai_chat_create env (model_name self) messages)
     else if decide (provider self = lit "anthropic") then
       let messages := [user_message prompt] in
       emit (EvRequest Anthropic (model_name self) messages) ;;;
       eff_lift (anthropic_messages_create env (model_name self) messages)
     else if decide (provider self = lit "groq") then
       let messages := with_system system_instruction [user_message prompt] in
       emit (EvRequest Groq (model_name self) messages) ;;;
       eff_lift (groq_chat_create env (model_name self) messages false)
     else eff_ret None)
    (fun e => eff_ret (Some (lit "Error: " ++ exn_msg e))).

(** The [try] block of [generate_structured], lines 117-160. *)
Definition structured_attempt (self : client) (prompt : str)
    (schema : schema_model) : IO pyobj :=
  if decide (provider self = lit "gemini") then
    emit (EvRequest Gemini (model_name self) [user_message prompt]) ;;;
    text <- eff_lift (gemini_generate_content env (model_name self) prompt
                                          (Some schema)) ;;;
    eff_lift (model_validate_json env schema text)
  else if decide (provider self = lit "openai") then
    let messages := [user_message prompt] in
    emit (EvRequest OpenAI (model_name self) messages) ;;;
    eff_lift (openai_chat_parse env (model_name self) messages schema)
  else if decide (provider self = lit "groq") then
    let messages :=
      [ {| role := lit "system";
           content := lit "You are a helpful assistant that outputs JSON." |};
        user_message prompt ] in
    emit (EvRequest Groq (model_name self) messages) ;;;
    text <- eff_lift (groq_chat_create env (model_name self) messages true) ;;;
    eff_lift (json_loads_validate_Response env text)
  else
    eff_raise (NotImplementedError
      (lit "Structured output only supported for Gemini, Groq, and OpenAI.")).

(** [generate_structured], lines 114-165. *)
Definition generate_structured (self : client) (prompt : str)
    (schema : schema_model) : IO pyobj :=
  eff_try (structured_attempt self prompt schema)
        (fun e => emit (EvPrintStructuredError e) ;;;
                  eff_ret (model_construct schema)).

End Client.

End LLMClient.

(* ===================================================================== *)
(** * [src/generation_utils/generator.py]                                 *)
(* ===================================================================== *)

Module StudentGenerator.
Import Schema LLMClient.

Section Generator.

Variable env : environment.

(** [StudentGenerator.__init__]: the generator is its [llm]. *)
Definition __init__ (provider model_name : str) : IO client :=
  LLMClient.__init__ env provider model_name.

Definition system_instr : str :=
  lit "You are a helpful assistant. Answer based strictly on the context provided.".

Definition build_prompt (query context : str) : str :=
  lit "Context:" ++ [PreProcessor.NL] ++ context
    ++ [PreProcessor.NL; PreProcessor.NL] ++ lit "User question: " ++ query
    ++ [PreProcessor.NL].

(** [generate], lines 12-23.  A class is truthy, so [if schema] asks
    whether a schema was passed. *)
Definition generate (self : client) (query context : str)
    (schema : option schema_model) : IO pyobj :=
  let prompt := build_prompt query context in
  match schema with
  | Some schema => generate_structured env self prompt schema
  | None =>
      eff_bind (generate_text env self prompt (Some system_instr))
        (fun response =>
           match response with
           | None => eff_ret
                       (PyStr (lit "Error: The LLM returned no response."))
           | Some text => eff_ret (PyStr text)
           end)
  end.

End Generator.

End StudentGenerator.

(* ===================================================================== *)
(** * Stand-ins for the external libraries, used in examples              *)
(* ===================================================================== *)

Module Toy.
Import PreProcessor Schema LLMClient.

(** A sentence per line. *)
Definition sent_tokenize (text : str) : list str :=
  List.filter (fun s => negb (Nat.eqb (length s) 0))
              (map strip (split_chr NL text)).

(** A token per character. *)
Definition enc_encode (s : str) : list N := map ord s.

Definition get_encoding (name : str) : str -> list N := enc_encode.

(** A one-dimensional embedding: the length of the text. *)
Definition model_encode (texts : list str) : list nat := map (@length ascii) texts.

Definition html_get_text (html : str) : str := html.

(** Every SDK is installed; Gemini answers without text, the other
    services fail. *)
Definition env : environment :=
  {| HAS_GEMINI := true; HAS_OPENAI := true; HAS_ANTHROPIC := true;
     HAS_GROQ := true;
     get_key := fun _ _ => Returned (Some (lit "key"));
     new_client := fun _ _ => Returned tt;
     gemini_generate_content := fun _ _ _ => Returned None;
     openai_chat_create := fun _ _ => Raised (OtherError (lit "401"));
     openai_chat_parse := fun _ _ _ => Raised (OtherError (lit "401"));
     anthropic_messages_create := fun _ _ => Returned (Some (lit "hello"));
     groq_chat_create := fun _ _ _ => Returned (Some (lit "{"));
     model_validate_json :=
       fun _ _ => Raised (ValueError (lit "invalid JSON"));
     json_loads_validate_Response :=
       fun _ => Raised (ValueError (lit "invalid JSON")) |}.

Definition client_of (p : str) : client :=
  {| provider := p; model_name := lit "m"; handle := None |}.

(** An HTML file whose bytes are not UTF-8 (say the single byte 0xFF):
    [f.read()] raises [UnicodeDecodeError]. *)
Definition bad_html : file :=
  {| f_parts := [lit "bad.html"];
     f_exists := true;
     f_read := Raised (UnicodeDecodeError
                 (lit "'utf-8' codec can't decode byte 0xff in position 0: invalid start byte"));
     f_pdf_pages := Raised (OtherError (lit "not a PDF")) |}.

(** A PDF with one page of text. *)
Definition good_pdf : file :=
  {| f_parts := [lit "docs"; lit "good.pdf"];
     f_exists := true;
     f_read := Raised (UnicodeDecodeError (lit "binary file"));
     f_pdf_pages := Returned [lit "Sentence one. Sentence two."] |}.

(** A damaged PDF: [fitz.open] raises. *)
Definition bad_pdf : file :=
  {| f_parts := [lit "bad.PDF"];
     f_exists := true;
     f_read := Raised (UnicodeDecodeError (lit "binary file"));
     f_pdf_pages := Raised (OtherError (lit "cannot open broken document")) |}.

(** Two different texts with the same MD5 digest
    (faad49866e9498fc1719f5289e7a0269); they differ in their 22nd
    character. *)
Definition colliding_a : str :=
  lit "TEXTCOLLBYfGiJUETHQ4hAcKSMd5zYpgqf1YRDhkmxHkhPWptrkoyz28wnI9V0aHeAuaKnak".
Definition colliding_b : str :=
  lit "TEXTCOLLBYfGiJUETHQ4hEcKSMd5zYpgqf1YRDhkmxHkhPWptrkoyz28wnI9V0aHeAuaKnak".

(** Two sentences of 100 characters and one of 120, a sentence per line. *)
Definition three_sentences : str :=
  repeat "a"%char 100 ++ [NL] ++ repeat "b"%char 100 ++ [NL]
    ++ repeat "c"%char 120.

(** A short sentence and one of 256 characters. *)
Definition short_then_long : str :=
  lit "Intro." ++ [NL] ++ repeat "x"%char 256.

(** Text with runs of blanks and of newlines, and text with a form feed
    between two newlines. *)
Definition messy_text : str :=
  lit "  Hello   world" ++ [TAB; SP; TAB] ++ lit "again " ++ [NL; NL; NL]
    ++ lit "next  line  " ++ [NL].

Definition page_break_text : str :=
  lit "a" ++ [NL; FF; NL] ++ lit "b".

Definition empty_world : world nat :=
  {| encoder_calls := []; collection := []; printed := [] |}.

End Toy.

(* ===================================================================== *)
(** * Notions used to state further properties                            *)
(* ===================================================================== *)

Module Notions.
Import PreProcessor Schema LLMClient.



(** Each piece after the first is seeded with the overlap text of the
    piece before it. *)
Fixpoint seeds_linked (overlap : Z) (pieces : list piece) : Prop :=
  match pieces with
  | p :: (q :: _) as rest =>
      seed q = Some (overlap_text overlap (piece_text p))
      /\ seeds_linked overlap rest
  | _ => True
  end.

(** What ingestion leaves in the store and hands to the encoder, without
    what it prints. *)
Definition stored {vector : Type} (w : world vector)
  : list (list str) * list (batch vector) :=
  (encoder_calls w, collection w).

(** The files [run_ingestion] extracts text from. *)
Definition supported (f : file) : bool :=
  bool_decide (file_ext f = lit ".html")
  || bool_decide (file_ext f = lit ".pdf").

(** The requests sent to a provider among the events of a trace. *)
Definition is_request (ev : event) : bool :=
  match ev with
  | EvRequest _ _ _ => true
  | _ => false
  end.

Definition requests (t : list event) : nat := length (List.filter is_request t).

(** As [Toy.env], without the Groq SDK. *)
Definition env_without_groq : environment :=
  {| HAS_GEMINI := HAS_GEMINI Toy.env; HAS_OPENAI := HAS_OPENAI Toy.env;
     HAS_ANTHROPIC := HAS_ANTHROPIC Toy.env; HAS_GROQ := false;
     get_key := get_key Toy.env;
     new_client := new_client Toy.env;
     gemini_generate_content := gemini_generate_content Toy.env;
     openai_chat_create := openai_chat_create Toy.env;
     openai_chat_parse := openai_chat_parse Toy.env;
     anthropic_messages_create := anthropic_messages_create Toy.env;
     groq_chat_create := groq_chat_create Toy.env;
     model_validate_json := model_validate_json Toy.env;
     json_loads_validate_Response := json_loads_validate_Response Toy.env |}.

(** A PDF and an HTML file that are gone when they are opened. *)
Definition missing_pdf : file :=
  {| f_parts := [lit "gone.pdf"]; f_exists := false;
     f_read := Raised (OtherError (lit "No such file or directory"));
     f_pdf_pages := Raised (OtherError (lit "no such file")) |}.

Definition missing_html : file :=
  {| f_parts := [lit "gone.html"]; f_exists := false;
     f_read := Raised (OtherError (lit "No such file or directory"));
     f_pdf_pages := Raised (OtherError (lit "no such file")) |}.

(** A file [run_ingestion] has no extractor for. *)
Definition notes_txt : file :=
  {| f_parts := [lit "notes.txt"]; f_exists := true;
     f_read := Returned (lit "some notes");
     f_pdf_pages := Raised (OtherError (lit "not a PDF")) |}.

End Notions.

(* ===================================================================== *)
(** * [src/app.py]                                                        *)
(* ===================================================================== *)

Module App.
Import Schema LLMClient StudentGenerator.

(** What [yaml.safe_load] gives for a configuration made of mappings,
    strings and integers. *)
Inductive scalar : Type :=
  | SStr (s : str)
  | SInt (n : Z).

#[local] Unset Elimination Schemes.
Inductive yaml : Type :=
  | YScalar (v : scalar)
  | YMap (items : list (scalar * yaml)).
#[local] Set Elimination Schemes.

Definition scalar_eqb (a b : scalar) : bool :=
  match a, b with
  | SStr s, SStr s' => bool_decide (s = s')
  | SInt n, SInt n' => (n =? n')%Z
  | _, _ => false
  end.

(** The value under a key among the items of a dict (a key occurs once). *)
Fixpoint find_item (k : scalar) (items : list (scalar * yaml)) : option yaml :=
  match items with
  | [] => None
  | (k', v) :: rest => if scalar_eqb k k' then Some v else find_item k rest
  end.

(** [s[i]] on a string: a negative index counts from the end. *)
Definition str_index (s : str) (i : Z) : option ascii :=
  let n := Z.of_nat (length s) in
  let j := if i <? 0 then i + n else i in
  if (0 <=? j) && (j <? n) then s !! Z.to_nat j else None.

(** The settings [load_system] hands to retrieval. *)
Record system_config : Type :=
  { DB_PATH : yaml;
    COLLECTION_NAME : yaml;
    EMBEDDING_MODEL : yaml;
    NUM_DOCS : yaml;
    CHUNKS_PER_DOC : yaml }.

(** The [StudentGenerator] made from the configuration: its [llm], with
    the model name as the configuration has it. *)
Record student_agent : Type :=
  { agent_provider : str;
    agent_model : yaml;
    agent_handle : option backend }.

Definition key (name : string) : yaml := YScalar (SStr (lit name)).

Section Config.

Variable env : environment.

(** Texts the interpreter makes: [str(e)] for the exception that [d[k]]
    raises ([KeyError], [TypeError], [IndexError]) and for the
    [AttributeError] of [v.lower()], and [v] formatted in an f-string when
    it is not a string. *)
Variable subscript_error : yaml -> yaml -> str.
Variable attribute_error : yaml -> str.
Variable format_value : yaml -> str.

(** [d[k]] *)
Definition getitem (d k : yaml) : outcome yaml :=
  match d, k with
  | YMap items, YScalar k' =>
      match find_item k' items with
      | Some v => Returned v
      | None => Raised (OtherError (subscript_error d k))
      end
  | YScalar (SStr s), YScalar (SInt i) =>
      match str_index s i with
      | Some c => Returned (YScalar (SStr [c]))
      | None => Raised (OtherError (subscript_error d k))
      end
  | _, _ => Raised (OtherError (subscript_error d k))
  end.

Definition obind {A B} (o : outcome A) (k : A -> outcome B) : outcome B :=
  match o with
  | Returned a => k a
  | Raised e => Raised e
  end.

Notation "x <-- c ;; k" := (obind c (fun x => k))
  (at level 100, c at next level, right associativity).

(** Lines 47-63 of [load_system]: the subscripts, in the order in which
    they are evaluated, up to the arguments of [StudentGenerator]. *)
Definition lookups (cfg : yaml) : outcome (system_config * yaml * yaml) :=
  embeddings <-- getitem cfg (key "embeddings") ;;
  retrieval <-- getitem cfg (key "retrieval") ;;
  active_embedding <-- getitem retrieval (key "active_embedding") ;;
  active_emb <-- getitem embeddings active_embedding ;;
  llm <-- getitem cfg (key "llm") ;;
  generation <-- getitem cfg (key "generation") ;;
  active_student <-- getitem generation (key "active_student") ;;
  active_stu <-- getitem llm active_student ;;
  db <-- getitem cfg (key "db") ;;
  retrieval <-- getitem cfg (key "retrieval") ;;
  active_db_name <-- getitem retrieval (key "active_db") ;;
  active_db <-- getitem db active_db_name ;;
  data <-- getitem cfg (key "data") ;;
  db_path <-- getitem data (key "db_path") ;;
  collection <-- getitem active_db (key "collection") ;;
  model <-- getitem active_emb (key "model") ;;
  retrieval <-- getitem cfg (key "retrieval") ;;
  num_docs <-- getitem retrieval (key "num_docs") ;;
  retrieval <-- getitem cfg (key "retrieval") ;;
  chunks_per_doc <-- getitem retrieval (key "chunks_per_doc") ;;
  provider <-- getitem active_stu (key "provider") ;;
  model_name <-- getitem active_stu (key "model") ;;
  Returned ({| DB_PATH := db_path;
               COLLECTION_NAME := collection;
               EMBEDDING_MODEL := model;
               NUM_DOCS := num_docs;
               CHUNKS_PER_DOC := chunks_per_doc |},
            provider, model_name).

(** [StudentGenerator(provider, model_name)], that is
    [LLMClient.__init__], on values as the configuration has them. *)
Definition student_generator_init (provider model_name : yaml)
  : IO student_agent :=
  emit EvLoadDotenv ;;;
  match provider with
  | YScalar (SStr p) =>
      let p := lower p in
      b <- _init_client env p ;;;
      emit (EvPrintConnected p
              match model_name with
              | YScalar (SStr m) => m
              | _ => format_value model_name
              end) ;;;
      eff_ret {| agent_provider := p; agent_model := model_name;
                 agent_handle := Some b |}
  | _ => eff_raise (OtherError (attribute_error provider))
  end.

(** [load_system], lines 38-66.  [config] is what opening and loading
    [config.yaml] gives. *)
Definition load_system (config : outcome yaml)
  : IO (system_config * student_agent) :=
  cfg <- eff_lift config ;;;
  found <- eff_lift (lookups cfg) ;;;
  let '(system_config, provider, model_name) := found in
  student_agent <- student_generator_init provider model_name ;;;
  eff_ret (system_config, student_agent).

End Config.

(** The generator of a client, as [load_system] returns it. *)
Definition agent_of (c : client) : student_agent :=
  {| agent_provider := provider c;
     agent_model := YScalar (SStr (model_name c));
     agent_handle := handle c |}.

(** ** The interaction, lines 73-111 *)

(** What the page is asked to do. *)
Inductive ui_event : Type :=
  | RenderAnswer (answer_object : pyobj)
  | RenderEvidence (answer_object : pyobj)
  | ShowError (text : str).

Record app_state : Type :=
  { llm_trace : list event; page : list ui_event }.

Definition with_llm {A} (m : IO A) : eff app_state A :=
  fun s => let '(r, t) := m (llm_trace s) in
           (r, {| llm_trace := t; page := page s |}).

Definition ask_page (ev : ui_event) : eff app_state unit :=
  fun s => (Returned tt, {| llm_trace := llm_trace s; page := page s ++ [ev] |}).

Section Interaction.

Variable env : environment.

(** [retrieve_data], [rank_datasets], [str(ranked_data)] and the two
    rendering helpers, which return or raise. *)
Variables retrieved ranked : Type.
Variable retrieve_data : str -> yaml -> yaml -> yaml -> yaml -> yaml
                         -> outcome retrieved.
Variable rank_datasets : retrieved -> outcome ranked.
Variable str_of_ranked : ranked -> str.
Variable render_answer_section : pyobj -> outcome unit.
Variable render_supporting_evidence : pyobj -> outcome unit.

(** The [try] block, lines 78-108. *)
Definition search_and_answer (sys_cfg : system_config) (student : client)
    (query_text : str) : eff app_state unit :=
  retrieved_data <- eff_lift (retrieve_data query_text
                                (DB_PATH sys_cfg) (COLLECTION_NAME sys_cfg)
                                (EMBEDDING_MODEL sys_cfg) (NUM_DOCS sys_cfg)
                                (CHUNKS_PER_DOC sys_cfg)) ;;;
  ranked_data <- eff_lift (rank_datasets retrieved_data) ;;;
  let context_str := str_of_ranked ranked_data in
  answer_object <- with_llm (generate env student query_text context_str
                                      (Some ResponseModel)) ;;;
  ask_page (RenderAnswer answer_object) ;;;
  eff_lift (render_answer_section answer_object) ;;;
  ask_page (RenderEvidence answer_object) ;;;
  eff_lift (render_supporting_evidence answer_object).

(** Lines 75-111: [query_text] and [search_btn] are what
    [render_search_bar] returned. *)
Definition interaction (sys_cfg : system_config) (student : client)
    (query_text : str) (search_btn : bool) : eff app_state unit :=
  if search_btn && negb (bool_decide (query_text = [])) then
    eff_try (search_and_answer sys_cfg student query_text)
            (fun e => ask_page (ShowError (lit "An error occurred: "
                                             ++ exn_msg e)))
  else eff_ret tt.

End Interaction.

(** ** A configuration for the examples *)

Definition smap (items : list (string * yaml)) : yaml :=
  YMap (map (fun kv => (SStr (lit (fst kv)), snd kv)) items).

Definition sstr (s : string) : yaml := YScalar (SStr (lit s)).

Definition example_config : yaml :=
  smap [("embeddings",
          smap [("minilm", smap [("model", sstr "all-MiniLM-L6-v2")]);
                ("e5", smap [("model", sstr "intfloat/e5-base-v2")])]);
        ("llm",
          smap [("gemini_flash",
                 smap [("provider", sstr "Gemini");
                       ("model", sstr "gemini-2.0-flash")]);
                ("mistral_large",
                 smap [("provider", sstr "mistral");
                       ("model", sstr "mistral-large")])]);
        ("db", smap [("main", smap [("collection", sstr "datasets")])]);
        ("data", smap [("db_path", sstr "./chroma")]);
        ("retrieval",
          smap [("active_embedding", sstr "e5");
                ("active_db", sstr "main");
                ("num_docs", YScalar (SInt 5));
                ("chunks_per_doc", YScalar (SInt 3))]);
        ("generation", smap [("active_student", sstr "gemini_flash")])].

(** The same, with another value under a key of a section. *)
Definition set_item (section name : string) (v : yaml) (cfg : yaml) : yaml :=
  match cfg with
  | YMap items =>
      YMap (map (fun kv =>
                   if scalar_eqb (fst kv) (SStr (lit section)) then
                     match snd kv with
                     | YMap inner =>
                         (fst kv,
                          YMap (map (fun kv' =>
                                  if scalar_eqb (fst kv') (SStr (lit name))
                                  then (fst kv', v) else kv') inner))
                     | YScalar _ => kv
                     end
                   else kv) items)
  | YScalar _ => cfg
  end.

Definition plain_error (d k : yaml) : str :=
  match k with
  | YScalar (SStr s) => lit "'" ++ s ++ lit "'"
  | _ => lit "key"
  end.

Definition plain_attribute_error (v : yaml) : str :=
  lit "object has no attribute 'lower'".

Definition plain_format (v : yaml) : str := lit "?".

Definition fresh : app_state := {| llm_trace := []; page := [] |}.

End App.

(* ===================================================================== *)
(** * Theorems: the Python runtime pieces                                 *)
(* ===================================================================== *)

Module RuntimeSpec.

(** Test vectors of RFC 1321 and of Python's [hashlib]. *)
Example md5_empty :
  MD5.hexdigest (encode_utf8 []) = lit "d41d8cd98f00b204e9800998ecf8427e".
Proof. vm_compute. reflexivity. Qed.

Example md5_abc :
  MD5.hexdigest (encode_utf8 (lit "abc"))
  = lit "900150983cd24fb0d6963f7d28e17f72".
Proof. vm_compute. reflexivity. Qed.

Example md5_message_digest :
  MD5.hexdigest (encode_utf8 (lit "message digest"))
  = lit "f96b697d7cb7938d525a2f31aaf161d0".
Proof. vm_compute. reflexivity. Qed.

Example md5_one_block :
  MD5.hexdigest (encode_utf8 (repeat "a"%char 64))
  = lit "014842d480b571495a4a0363793f7367".
Proof. vm_compute. reflexivity. Qed.

(** U+00E9 is encoded on two bytes. *)
Example md5_e_acute :
  MD5.hexdigest (encode_utf8 ["233"%char])
  = lit "66ddcd97cfdeabb2f6fb8a999b4bc76f".
Proof. vm_compute. reflexivity. Qed.

Example md5_colliding :
  PreProcessor.md5_hex Toy.colliding_a = lit "faad49866e9498fc1719f5289e7a0269"
  /\ PreProcessor.md5_hex Toy.colliding_b
     = lit "faad49866e9498fc1719f5289e7a0269".
Proof. vm_compute. split; reflexivity. Qed.

Example str_of_nat_120 : str_of_nat 120 = lit "120" /\ str_of_nat 0 = lit "0".
Proof. vm_compute. split; reflexivity. Qed.

Example slice_from_negative :
  slice_from (lit "abcdef") (-2) = lit "ef"
  /\ slice_from (lit "abcdef") 0 = lit "abcdef"
  /\ slice_from (lit "abcdef") 2 = lit "cdef"
  /\ slice_from (lit "abcdef") (-9) = lit "abcdef".
Proof. vm_compute. repeat split; reflexivity. Qed.

Example lower_mixed : lower (lit "E5-Base") = lit "e5-base".
Proof. vm_compute. reflexivity. Qed.

End RuntimeSpec.

(* ===================================================================== *)
(** * Theorems: [_deduplicate_chunks]                                     *)
(* ===================================================================== *)

Module DedupSpec.
Import PreProcessor.

Lemma fold_dedup_step chunks st :
  unique (fold_left dedup_step chunks st)
  = unique st ++ dedup_from (seen st) chunks.
Proof.
  revert st. induction chunks as [| c rest IH]; intros st; simpl.
  - symmetry. apply app_nil_r.
  - rewrite IH. unfold dedup_step. case_decide; [reflexivity |].
    simpl. rewrite <- app_assoc. reflexivity.
Qed.

Lemma dedup_unfold chunks : _deduplicate_chunks chunks = dedup_from ∅ chunks.
Proof. unfold _deduplicate_chunks. rewrite fold_dedup_step. reflexivity. Qed.

Lemma collision_free_spec chunks :
  md5_collision_free chunks = true <->
  forall a b, a ∈ chunks -> b ∈ chunks -> md5_hex a = md5_hex b -> a = b.
Proof.
  unfold md5_collision_free. rewrite forallb_forall. split.
  - intros H a b Ha Hb Hab. apply list_elem_of_In in Ha, Hb.
    specialize (H a Ha). rewrite forallb_forall in H. specialize (H b Hb).
    rewrite (bool_decide_eq_true_2 _ Hab) in H. simpl in H.
    apply bool_decide_eq_true_1 in H. exact H.
  - intros H a Ha. apply forallb_forall. intros b Hb.
    apply list_elem_of_In in Ha, Hb.
    destruct (bool_decide (md5_hex a = md5_hex b)) eqn:E; [| reflexivity].
    apply bool_decide_eq_true_1 in E. simpl.
    apply bool_decide_eq_true_2. auto.
Qed.

Lemma elem_of_middle (pre rest : list str) c x :
  x ∈ pre ++ c :: rest <-> x = c \/ x ∈ pre ++ rest.
Proof. rewrite !elem_of_app, elem_of_cons. tauto. Qed.

(** The digests in [seen] are those of the strings [pre] met so far. *)
Lemma dedup_from_first_seen chunks : forall pre (seen : gset str),
  (forall h, h ∈ seen <-> exists p, p ∈ pre /\ md5_hex p = h) ->
  (forall a b, a ∈ pre ++ chunks -> b ∈ pre ++ chunks ->
               md5_hex a = md5_hex b -> a = b) ->
  dedup_from seen chunks = filter (fun y => y ∉ pre) (first_seen chunks).
Proof.
  induction chunks as [| c rest IH]; intros pre seen Hseen Hinj; simpl.
  - reflexivity.
  - case_decide as Hin.
    + apply Hseen in Hin as (p & Hp & Hpc).
      assert (p = c) as ->.
      { apply Hinj; [| | exact Hpc]; apply elem_of_middle.
        - right. apply elem_of_app. by left.
        - by left. }
      rewrite filter_cons_False by (intros Hc; apply Hc, Hp).
      rewrite list_filter_filter_l by (intros x Hx ->; apply Hx, Hp).
      apply IH; [exact Hseen |].
      intros a b Ha Hb. apply Hinj; apply elem_of_middle; by right.
    + assert (c ∉ pre) as Hc.
      { intros Hc. apply Hin, Hseen. eauto. }
      rewrite filter_cons_True by exact Hc. f_equal.
      rewrite list_filter_filter.
      rewrite (IH (c :: pre) ({[md5_hex c]} ∪ seen)).
      * apply list_filter_iff. intros x. rewrite not_elem_of_cons. tauto.
      * intros h. rewrite elem_of_union, elem_of_singleton, Hseen.
        split.
        -- intros [-> | (p & Hp & <-)]; [exists c | exists p];
             (split; [apply elem_of_cons; auto | reflexivity]).
        -- intros (p & Hp & <-). apply elem_of_cons in Hp as [-> | Hp];
             [left; reflexivity | right; eauto].
      * intros a b Ha Hb.
        apply Hinj; apply elem_of_middle; apply elem_of_cons; assumption.
Qed.

Lemma filter_all {A} (P : A -> Prop) `{!forall x, Decision (P x)}
    (l : list A) :
  (forall x, P x) -> filter P l = l.
Proof.
  intros HP. induction l as [| x l IH]; [reflexivity |].
  rewrite filter_cons_True by apply HP. f_equal. exact IH.
Qed.

Lemma first_seen_elem_of chunks c : c ∈ first_seen chunks <-> c ∈ chunks.
Proof.
  induction chunks as [| x rest IH]; simpl; [reflexivity |].
  rewrite !elem_of_cons, list_elem_of_filter, IH.
  destruct (decide (c = x)); tauto.
Qed.

Lemma first_seen_NoDup chunks : NoDup (first_seen chunks).
Proof.
  induction chunks as [| x rest IH]; simpl; constructor.
  - rewrite list_elem_of_filter. intros [Hne _]. congruence.
  - apply NoDup_filter, IH.
Qed.

Lemma first_seen_sublist chunks : first_seen chunks `sublist_of` chunks.
Proof.
  induction chunks as [| x rest IH]; simpl; [constructor |].
  apply sublist_skip. etrans; [apply sublist_filter | exact IH].
Qed.

(** C6, as amended.  When no two different strings of the list have the
    same MD5 digest, [_deduplicate_chunks] returns the distinct strings of
    the list in first-seen order: no string twice, every string of the input
    present, in the order of the input. *)
Theorem dedup_first_seen chunks :
  md5_collision_free chunks = true ->
  _deduplicate_chunks chunks = first_seen chunks
  /\ NoDup (_deduplicate_chunks chunks)
  /\ (forall c, c ∈ _deduplicate_chunks chunks <-> c ∈ chunks)
  /\ _deduplicate_chunks chunks `sublist_of` chunks.
Proof.
  intros Hfree.
  pose proof (proj1 (collision_free_spec chunks) Hfree) as Hinj.
  assert (_deduplicate_chunks chunks = first_seen chunks) as ->.
  { rewrite dedup_unfold.
    rewrite (dedup_from_first_seen chunks [] ∅).
    - apply filter_all. intros x. apply not_elem_of_nil.
    - intros h. split; [intros Hh; by apply not_elem_of_empty in Hh |].
      intros (p & Hp & _).
      exfalso. eapply not_elem_of_nil, Hp.
    - exact Hinj. }
  repeat split.
  - apply first_seen_NoDup.
  - apply first_seen_elem_of.
  - apply first_seen_elem_of.
  - apply first_seen_sublist.
Qed.

Lemma dedup_first_seen_ABA :
  _deduplicate_chunks [lit "A"; lit "B"; lit "A"] = [lit "A"; lit "B"]
  /\ NoDup (_deduplicate_chunks [lit "A"; lit "B"; lit "A"])
  /\ (forall c, c ∈ _deduplicate_chunks [lit "A"; lit "B"; lit "A"]
                 <-> c ∈ [lit "A"; lit "B"; lit "A"])
  /\ _deduplicate_chunks [lit "A"; lit "B"; lit "A"]
       `sublist_of` [lit "A"; lit "B"; lit "A"].
Proof.
  apply (dedup_first_seen [lit "A"; lit "B"; lit "A"]).
  vm_compute. reflexivity.
Defined.

(** C6 fails as stated: of two different chunks with the same MD5 digest,
    the second is dropped, so a distinct input string is missing from the
    result. *)
Lemma dedup_drops_colliding_chunk :
  Toy.colliding_a <> Toy.colliding_b
  /\ Toy.colliding_b ∈ [Toy.colliding_a; Toy.colliding_b]
  /\ _deduplicate_chunks [Toy.colliding_a; Toy.colliding_b]
     = [Toy.colliding_a]
  /\ Toy.colliding_b ∉ _deduplicate_chunks [Toy.colliding_a; Toy.colliding_b].
Proof.
  assert (Toy.colliding_a <> Toy.colliding_b) as Hne.
  { apply (proj1 (bool_decide_eq_false (Toy.colliding_a = Toy.colliding_b))).
    vm_compute. reflexivity. }
  assert (_deduplicate_chunks [Toy.colliding_a; Toy.colliding_b]
          = [Toy.colliding_a]) as Hout by (vm_compute; reflexivity).
  split; [| split; [| split]].
  - exact Hne.
  - apply elem_of_cons. right. apply elem_of_cons. left. reflexivity.
  - exact Hout.
  - rewrite Hout. rewrite list_elem_of_singleton. congruence.
Qed.

End DedupSpec.

(* ===================================================================== *)
(** * Theorems: the LLM client and the generator                          *)
(* ===================================================================== *)

Module LLMClientSpec.
Import Schema LLMClient.

Lemma init_client_unknown env provider t :
  provider ∉ known_providers ->
  _init_client env provider t
  = (Raised (ValueError (lit "Unknown provider: " ++ provider)), t).
Proof.
  intros Hnot. unfold _init_client, known_providers in *.
  repeat case_decide; subst; try reflexivity;
    exfalso; apply Hnot, list_elem_of_In; simpl; auto.
Qed.

(** C8.  A provider name that, lowercased as [__init__] does, is none of
    "gemini", "openai", "anthropic", "groq" makes the construction raise
    [ValueError] ("Unknown provider: ..."); by then the client has only
    loaded the dotenv file: no SDK client was created, no request sent. *)
Theorem unknown_provider_rejected env provider model_name t :
  lower provider ∉ known_providers ->
  __init__ env provider model_name t
  = (Raised (ValueError (lit "Unknown provider: " ++ lower provider)),
     t ++ [EvLoadDotenv]).
Proof.
  intros Hnot. unfold __init__, eff_bind, emit.
  rewrite init_client_unknown by assumption. reflexivity.
Qed.

Lemma unknown_provider_rejected_mistral :
  __init__ Toy.env (lit "Mistral") (lit "mistral-large") []
  = (Raised (ValueError (lit "Unknown provider: mistral")), [EvLoadDotenv]).
Proof.
  apply (unknown_provider_rejected Toy.env (lit "Mistral")
           (lit "mistral-large") []).
  apply (proj1 (bool_decide_eq_false
                  (lower (lit "Mistral") ∈ known_providers))).
  vm_compute. reflexivity.
Defined.

Lemma generate_text_returns env self prompt system_instruction t :
  exists response t',
    generate_text env self prompt system_instruction t
    = (Returned response, t').
Proof.
  unfold generate_text, eff_try.
  match goal with |- context [match ?b with _ => _ end] =>
    destruct b as [[r | e] t'] end; eauto.
Qed.

(** C3.  [generate_structured] returns in every case.  When its [try]
    block raises, be it a provider call, the parsing of the answer or the
    [NotImplementedError] of a provider without structured output, the
    value returned is [schema_model.model_construct()], an instance of the
    requested schema with every field absent or empty, and the error is
    printed. *)
Theorem generate_structured_never_raises env self prompt schema t :
  exists v t',
    generate_structured env self prompt schema t = (Returned v, t')
    /\ match structured_attempt env self prompt schema t with
       | (Returned a, t1) => v = a /\ t' = t1
       | (Raised e, t1) =>
           v = model_construct schema
           /\ instance_of schema v = true
           /\ all_fields_empty v = true
           /\ t' = t1 ++ [EvPrintStructuredError e]
       end
    /\ (provider self ∉ [lit "gemini"; lit "openai"; lit "groq"] ->
        v = model_construct schema).
Proof.
  unfold generate_structured, eff_try.
  destruct (structured_attempt env self prompt schema t) as [[a | e] t1] eqn:E.
  - exists a, t1. repeat split; try reflexivity.
    intros Hnot. exfalso. revert E. unfold structured_attempt.
    repeat case_decide; try discriminate;
      match goal with H : provider self = _ |- _ =>
        intros _; apply Hnot; rewrite H; apply list_elem_of_In;
        simpl; auto end.
  - exists (model_construct schema), (t1 ++ [EvPrintStructuredError e]).
    repeat split; destruct schema; reflexivity.
Qed.

(** What makes the [try] block raise: the request of the provider. *)
Lemma structured_attempt_request_fails env self prompt schema t e :
  (provider self = lit "gemini"
   /\ gemini_generate_content env (model_name self) prompt (Some schema)
      = Raised e)
  \/ (provider self = lit "openai"
      /\ openai_chat_parse env (model_name self) [user_message prompt] schema
         = Raised e)
  \/ (provider self = lit "groq"
      /\ groq_chat_create env (model_name self)
           [ {| role := lit "system";
                content := lit "You are a helpful assistant that outputs JSON." |};
             user_message prompt ] true
         = Raised e) ->
  fst (structured_attempt env self prompt schema t) = Raised e.
Proof.
  unfold structured_attempt, eff_bind, eff_lift, emit.
  intros [[Hp H] | [[Hp H] | [Hp H]]]; rewrite Hp, H; reflexivity.
Qed.

Example init_gemini :
  __init__ Toy.env (lit "Gemini") (lit "gemini-2.0-flash") []
  = (Returned {| provider := lit "gemini";
                 model_name := lit "gemini-2.0-flash";
                 handle := Some Gemini |},
     [EvLoadDotenv; EvGetKey (lit "GEMINI_API_KEY") (lit "gemini");
      EvNewClient Gemini (Some (lit "key"));
      EvPrintConnected (lit "gemini") (lit "gemini-2.0-flash")]).
Proof. vm_compute. reflexivity. Qed.

Example generate_structured_anthropic :
  generate_structured Toy.env (Toy.client_of (lit "anthropic")) (lit "q")
                      ResponseModel []
  = (Returned (PyResponse {| answer := None; name_top := None;
                             supporting_datasets := [] |}),
     [EvPrintStructuredError (NotImplementedError
        (lit "Structured output only supported for Gemini, Groq, and OpenAI."))]).
Proof. vm_compute. reflexivity. Qed.

Example generate_structured_openai_fails :
  fst (generate_structured Toy.env (Toy.client_of (lit "openai")) (lit "q")
                           DatasetSummaryModel [])
  = Returned (PyDatasetSummary {| ds_name := None; ds_summary := None;
                                  ds_quote := None |}).
Proof. vm_compute. reflexivity. Qed.

End LLMClientSpec.

Module StudentGeneratorSpec.
Import Schema LLMClient StudentGenerator.

(** C9.  Without a schema, [generate] makes the one free-text call, with
    the prompt built from context and query and the fixed system
    instruction; that call returns, and [generate] returns the literal
    "Error: The LLM returned no response." when its result is [None] and
    the generated text itself otherwise. *)
Theorem generate_without_schema env self query context t :
  exists response t',
    generate_text env self (build_prompt query context)
                  (Some system_instr) t = (Returned response, t')
    /\ generate env self query context None t
       = (Returned (PyStr match response with
                          | None => lit "Error: The LLM returned no response."
                          | Some text => text
                          end), t').
Proof.
  destruct (LLMClientSpec.generate_text_returns env self (build_prompt query context)
              (Some system_instr) t) as (response & t' & E).
  exists response, t'. split; [exact E |].
  unfold generate, eff_bind. rewrite E. destruct response; reflexivity.
Qed.

Example generate_no_response :
  fst (generate Toy.env (Toy.client_of (lit "gemini")) (lit "q") (lit "c")
                None [])
  = Returned (PyStr (lit "Error: The LLM returned no response.")).
Proof. vm_compute. reflexivity. Qed.

Example generate_text_unchanged :
  fst (generate Toy.env (Toy.client_of (lit "anthropic")) (lit "q") (lit "c")
                None [])
  = Returned (PyStr (lit "hello")).
Proof. vm_compute. reflexivity. Qed.

Example generate_error_text :
  fst (generate Toy.env (Toy.client_of (lit "openai")) (lit "q") (lit "c")
                None [])
  = Returned (PyStr (lit "Error: 401")).
Proof. vm_compute. reflexivity. Qed.

End StudentGeneratorSpec.

(* ===================================================================== *)
(** * Theorems: embedding and the ingestion run                           *)
(* ===================================================================== *)

Module IngestionSpec.
Import PreProcessor.

Lemma startswith_spec p s :
  startswith p s = true <-> exists rest, s = p ++ rest.
Proof.
  revert s. induction p as [| a p IH]; intros s; simpl.
  - split; eauto.
  - destruct s as [| b s]; simpl.
    + split; [discriminate | intros [rest H]; discriminate].
    + rewrite andb_true_iff, IH. unfold chr_eqb. rewrite Ascii.eqb_eq.
      split.
      * intros [-> [rest ->]]. eauto.
      * intros [rest H]. injection H as -> ->. eauto.
Qed.

(** [contains sub s] is Python's [sub in s]. *)
Lemma contains_spec sub s :
  contains sub s = true <-> exists before after, s = before ++ sub ++ after.
Proof.
  induction s as [| c s IH]; simpl; rewrite orb_true_iff, startswith_spec.
  - split.
    + intros [[rest H] | H]; [| discriminate]. exists [], rest. exact H.
    + intros (before & after & H). left.
      destruct before; [eauto | discriminate].
  - rewrite IH. split.
    + intros [[rest H] | (before & after & H)].
      * exists [], rest. exact H.
      * exists (c :: before), after. rewrite H. reflexivity.
    + intros (before & after & H). destruct before as [| b before].
      * left. eauto.
      * right. injection H as _ H. eauto.
Qed.

Lemma lower_chr_e c :
  lower_chr c = "e"%char -> c = "e"%char \/ c = "E"%char.
Proof.
  destruct c as [[] [] [] [] [] [] [] []]; vm_compute; intros H;
    try discriminate H; auto.
Qed.

Lemma lower_chr_5 c : lower_chr c = "5"%char -> c = "5"%char.
Proof.
  destruct c as [[] [] [] [] [] [] [] []]; vm_compute; intros H;
    try discriminate H; auto.
Qed.

(** The test of line 111: "e5" or "E5" occurs in the model name. *)
Lemma contains_e5_lower s :
  contains (lit "e5") (lower s) = true <->
  exists before c after,
    s = before ++ c :: "5"%char :: after /\ (c = "e"%char \/ c = "E"%char).
Proof.
  rewrite contains_spec. unfold lower. split.
  - intros (b & a & H). apply List.map_eq_app in H as (b' & r & -> & _ & Hr).
    destruct r as [| c [| d a']]; try discriminate Hr.
    injection Hr as Hc Hd _.
    apply lower_chr_5 in Hd as ->. exists b', c, a'.
    split; [reflexivity | apply lower_chr_e, Hc].
  - intros (before & c & after & -> & Hc).
    exists (map lower_chr before), (map lower_chr after).
    rewrite List.map_app. cbn [map]. destruct Hc as [-> | ->]; reflexivity.
Qed.

Section Embed.

Context {vector : Type} (model_encode : list str -> list vector).

(** C7.  With at least one chunk, [embed_and_upsert] makes one call of the
    encoder and one call of [collection.add].  The texts of the encoder call
    are the chunks, each with "passage: " in front when the lowercased model
    name contains "e5" and as they are when it does not; the [documents] of
    the [add] call are the chunks as they are in both cases. *)
Theorem embed_prefix_convention chunks model_name source_filename
    (w : world vector) :
  chunks <> [] ->
  exists w' b,
    embed_and_upsert model_encode chunks model_name source_filename w
    = (Returned tt, w')
    /\ (contains (lit "e5") (lower model_name) = true ->
        encoder_calls w'
        = encoder_calls w ++ [map (fun c => lit "passage: " ++ c) chunks])
    /\ (contains (lit "e5") (lower model_name) = false ->
        encoder_calls w' = encoder_calls w ++ [chunks])
    /\ collection w' = collection w ++ [b]
    /\ documents b = chunks.
Proof.
  intros Hne. destruct chunks as [| c chunks]; [congruence |].
  unfold embed_and_upsert. eexists _, _. split; [reflexivity |].
  cbn [encoder_calls collection documents].
  repeat split.
  - intros ->. reflexivity.
  - intros ->. f_equal. f_equal. cbn [app]. f_equal. apply map_id.
Qed.

End Embed.

Lemma embed_prefix_convention_e5 :
  exists w' b,
    embed_and_upsert Toy.model_encode [lit "first chunk"; lit "second chunk"]
      (lit "intfloat/multilingual-E5-base") (lit "docs/a.pdf") Toy.empty_world
    = (Returned tt, w')
    /\ (true = true ->
        encoder_calls w'
        = [[lit "passage: first chunk"; lit "passage: second chunk"]])
    /\ (true = false ->
        encoder_calls w' = [[lit "first chunk"; lit "second chunk"]])
    /\ collection w' = [b]
    /\ documents b = [lit "first chunk"; lit "second chunk"].
Proof.
  apply (embed_prefix_convention Toy.model_encode
           [lit "first chunk"; lit "second chunk"]
           (lit "intfloat/multilingual-E5-base") (lit "docs/a.pdf")
           Toy.empty_world).
  discriminate.
Defined.

Example embed_and_upsert_ids :
  map (fun b => (ids b, metadatas b))
      (collection (snd (embed_and_upsert Toy.model_encode
         [lit "first chunk"; lit "second chunk"] (lit "all-MiniLM-L6-v2")
         (lit "docs/a.pdf") Toy.empty_world)))
  = [([lit "docs/a.pdf_0"; lit "docs/a.pdf_1"],
      [[(lit "dataset", lit "docs/a.pdf")];
       [(lit "dataset", lit "docs/a.pdf")]])].
Proof. vm_compute. reflexivity. Qed.

Example embed_and_upsert_no_prefix :
  encoder_calls (snd (embed_and_upsert Toy.model_encode
     [lit "first chunk"; lit "second chunk"] (lit "all-MiniLM-L6-v2")
     (lit "docs/a.pdf") Toy.empty_world))
  = [[lit "first chunk"; lit "second chunk"]].
Proof. vm_compute. reflexivity. Qed.

(** The lines [filter_noise] drops and keeps. *)
Example filter_noise_cases :
  keep_line (lit "1. Introduction") = false
  /\ keep_line (lit "REFERENCES") = false
  /\ keep_line (lit "TABLE 2: Results") = false
  /\ keep_line (lit "see table 3 for details") = false
  /\ keep_line (lit "   ") = false
  /\ keep_line (lit "The model achieves 95% accuracy.") = true.
Proof. vm_compute. repeat split; reflexivity. Qed.

Example filter_noise_lines :
  filter_noise (lit "ABSTRACT" ++ [NL] ++ lit "We study chunking."
                  ++ [NL] ++ lit "12) item" ++ [NL] ++ lit "It works.")
  = lit "We study chunking." ++ [NL] ++ lit "It works.".
Proof. vm_compute. reflexivity. Qed.

Section Run.

Context {vector : Type} (model_encode : list str -> list vector)
        (html_get_text : str -> str) (sent_tokenize : str -> list str)
        (tiktoken_get_encoding : str -> str -> list N) (os_sep : ascii)
        (data_dir collection_name embedding_model_name tokenizer_model : str)
        (chunk_size chunk_overlap : Z).

Local Abbreviation ingest :=
  (ingest_file model_encode html_get_text sent_tokenize tiktoken_get_encoding
               os_sep data_dir embedding_model_name tokenizer_model
               chunk_size chunk_overlap).
Local Abbreviation run :=
  (run_ingestion model_encode html_get_text sent_tokenize
                 tiktoken_get_encoding os_sep data_dir collection_name
                 embedding_model_name tokenizer_model chunk_size
                 chunk_overlap).
Local Abbreviation source_name := (source_name os_sep).


(** The HTML path has no handler: what [open] or [read] raises leaves
    [run_ingestion], and the files after this one are not looked at. *)
Lemma html_failure_propagates f rest e w :
  file_ext f = lit ".html" -> f_exists f = true ->
  f_read f = Raised e ->
  run true (f :: rest) w
  = (Raised e,
     log [LogFound (S (length rest)); LogProcessing (source_name f)] w).
Proof.
  intros Hext Hex Hread. unfold run_ingestion. cbn [negb].
  unfold eff_bind at 1 2. unfold print at 1. cbn [for_each].
  unfold eff_bind at 1. unfold ingest_file.
  fold (file_ext f). rewrite Hext.
  destruct (decide (lit ".html" = lit ".html")) as [_ | Hne];
    [| congruence].
  unfold extract_text_from_html, eff_bind, print, eff_lift.
  rewrite Hex, Hread. cbn. unfold log, PreProcessor.source_name. cbn.
  rewrite <- app_assoc. reflexivity.
Qed.

End Run.

(** C1, at the failing input: a data directory with [bad.html], whose
    bytes are not UTF-8, and [docs/good.pdf].  The [UnicodeDecodeError] of
    reading [bad.html] leaves [run_ingestion]; nothing is printed about the
    failure, and [docs/good.pdf] is never processed: the collection is as it
    was. *)
Theorem run_ingestion_html_failure_aborts :
  forall (vector : Type) (model_encode : list str -> list vector)
         html_get_text sent_tokenize tiktoken_get_encoding os_sep
         data_dir collection_name embedding_model_name tokenizer_model
         chunk_size chunk_overlap (w : world vector),
    run_ingestion model_encode html_get_text sent_tokenize
      tiktoken_get_encoding os_sep data_dir collection_name
      embedding_model_name tokenizer_model chunk_size chunk_overlap
      true [Toy.bad_html; Toy.good_pdf] w
    = (Raised (UnicodeDecodeError
         (lit "'utf-8' codec can't decode byte 0xff in position 0: invalid start byte")),
       {| encoder_calls := encoder_calls w;
          collection := collection w;
          printed := printed w ++ [LogFound 2;
                                   LogProcessing (lit "bad.html")] |}).
Proof.
  intros. apply html_failure_propagates; reflexivity.
Qed.

(** The same directory with a damaged PDF in place of the HTML file: the
    run goes on and ingests [docs/good.pdf]. *)
Example run_ingestion_pdf_failure_continues :
  let '(result, w) :=
    run_ingestion Toy.model_encode Toy.html_get_text Toy.sent_tokenize
      Toy.get_encoding "/"%char (lit "data") (lit "coll")
      (lit "all-MiniLM-L6-v2") (lit "cl100k_base") 256 40
      true [Toy.bad_pdf; Toy.good_pdf] Toy.empty_world in
  result = Returned tt
  /\ map (fun b => (ids b, documents b)) (collection w)
     = [([lit "docs/good.pdf_0"], [lit "Sentence one. Sentence two."])]
  /\ printed w
     = [LogFound 2; LogProcessing (lit "bad.PDF");
        LogPdfError (lit "data/bad.PDF")
                    (OtherError (lit "cannot open broken document"));
        LogProcessing (lit "docs/good.pdf"); LogSaved 1;
        LogComplete (lit "coll") 1].
Proof. vm_compute. repeat split; reflexivity. Qed.

End IngestionSpec.

(* ===================================================================== *)
(** * Theorems: [chunk_text]                                              *)
(* ===================================================================== *)

Module ChunkSpec.
Import PreProcessor.

Lemma dedup_from_subset chunks : forall seen c,
  c ∈ dedup_from seen chunks -> c ∈ chunks.
Proof.
  induction chunks as [| x rest IH]; intros seen c; simpl.
  - auto.
  - case_decide.
    + intros Hc. apply elem_of_cons. right. eapply IH, Hc.
    + rewrite !elem_of_cons. intros [-> | Hc]; [by left |].
      right. eapply IH, Hc.
Qed.

(** Deduplication only removes chunks. *)
Lemma dedup_subset chunks c : c ∈ _deduplicate_chunks chunks -> c ∈ chunks.
Proof. rewrite DedupSpec.dedup_unfold. apply dedup_from_subset. Qed.

Section Chunking.

Context (enc_encode : str -> list N) (max_tokens overlap : Z).

Local Abbreviation tok := (tokens enc_encode).
Local Abbreviation stoks := (sentence_tokens enc_encode).
Local Abbreviation cstep := (chunk_step enc_encode max_tokens overlap).
Local Abbreviation pstep := (piece_step enc_encode max_tokens overlap).
Local Abbreviation pieces := (chunk_pieces enc_encode max_tokens overlap).

Lemma tokens_nonneg s : 0 <= tok s.
Proof. unfold tokens. lia. Qed.

Lemma piece_parts_snoc sd ss s :
  piece_parts {| seed := sd; sents := ss ++ [s] |}
  = piece_parts {| seed := sd; sents := ss |} ++ [s].
Proof. unfold piece_parts. destruct sd; reflexivity. Qed.

Lemma sentence_tokens_snoc sd ss s :
  stoks {| seed := sd; sents := ss ++ [s] |}
  = stoks {| seed := sd; sents := ss |} + tok s.
Proof.
  unfold sentence_tokens. cbn [sents].
  induction ss as [| x ss IH]; cbn [app map fold_right]; lia.
Qed.

Lemma sentence_tokens_nonneg p : 0 <= stoks p.
Proof.
  unfold sentence_tokens. induction (sents p) as [| x ss IH];
    cbn [map fold_right]; [lia |].
  pose proof (tokens_nonneg x). lia.
Qed.

Lemma seed_tokens_nonneg p : 0 <= seed_tokens enc_encode p.
Proof. unfold seed_tokens. destruct (seed p); [apply tokens_nonneg | lia]. Qed.

(** *** The loop with pieces is the loop of the source *)

Lemma piece_step_erase st s :
  piece_erase (pstep st s) = cstep (piece_erase st) s.
Proof.
  unfold piece_step, chunk_step, piece_erase. cbn [current_tokens].
  destruct (tok s >? max_tokens); [reflexivity |].
  destruct (p_tokens st + tok s >? max_tokens).
  - unfold piece_close, close_chunk. cbn. rewrite List.map_app. reflexivity.
  - cbn. destruct (p_current st) as [sd ss].
    rewrite piece_parts_snoc. reflexivity.
Qed.

Lemma fold_piece_step_erase sentences : forall st,
  piece_erase (fold_left pstep sentences st)
  = fold_left cstep sentences (piece_erase st).
Proof.
  induction sentences as [| s rest IH]; intros st; simpl; [reflexivity |].
  rewrite IH, piece_step_erase. reflexivity.
Qed.

Lemma piece_finish_erase st :
  chunk_finish (piece_erase st) = map piece_text (piece_finish st).
Proof.
  unfold chunk_finish, piece_finish, piece_erase. cbn [current chunks].
  destruct (piece_parts (p_current st)) eqn:E; [reflexivity |].
  rewrite List.map_app. cbn. unfold piece_text. rewrite E. reflexivity.
Qed.

Lemma chunk_sentences_pieces sentences :
  chunk_sentences enc_encode max_tokens overlap sentences
  = map piece_text (pieces sentences).
Proof.
  unfold chunk_sentences, chunk_pieces.
  rewrite <- piece_finish_erase, fold_piece_step_erase. reflexivity.
Qed.

(** *** Sentences over the limit leave no trace *)

Lemma fold_piece_step_filter sentences : forall st,
  fold_left pstep sentences st
  = fold_left pstep (filter (fun s => tok s <= max_tokens) sentences) st.
Proof.
  induction sentences as [| s rest IH]; intros st; [reflexivity |].
  rewrite filter_cons. case_decide as Hs.
  - simpl. apply IH.
  - simpl. rewrite <- IH. f_equal. unfold piece_step.
    destruct (Z.gtb_spec (tok s) max_tokens); [reflexivity | lia].
Qed.

Local Abbreviation from_kept all st :=
  (Forall (fun p => Forall (fun s => s ∈ all /\ tok s <= max_tokens) (sents p))
          (p_chunks st ++ [p_current st])).

Lemma piece_step_from_kept (all : list str) st s :
  s ∈ all -> from_kept all st -> from_kept all (pstep st s).
Proof.
  intros Hs Hst. unfold piece_step.
  destruct (Z.gtb_spec (tok s) max_tokens) as [Hlong | Hfits]; [exact Hst |].
  apply Forall_app in Hst as [Hchunks Hcur].
  apply (proj1 (Forall_singleton _ _)) in Hcur.
  destruct (p_tokens st + tok s >? max_tokens).
  - unfold piece_close. cbn. apply Forall_app. split.
    + apply Forall_app. split; [exact Hchunks |].
      apply Forall_singleton. exact Hcur.
    + apply Forall_singleton. cbn. apply Forall_singleton. auto.
  - cbn. apply Forall_app. split; [exact Hchunks |].
    apply Forall_singleton. cbn. apply Forall_app. split; [exact Hcur |].
    apply Forall_singleton. auto.
Qed.

Lemma fold_piece_step_from_kept (all sentences : list str) : forall st,
  (forall s, s ∈ sentences -> s ∈ all) ->
  from_kept all st -> from_kept all (fold_left pstep sentences st).
Proof.
  induction sentences as [| s rest IH]; intros st Hall Hst; [exact Hst |].
  simpl. apply IH.
  - intros x Hx. apply Hall. apply elem_of_cons. by right.
  - apply piece_step_from_kept; [| exact Hst].
    apply Hall. apply elem_of_cons. by left.
Qed.

Lemma piece_finish_subset st p :
  p ∈ piece_finish st -> p ∈ p_chunks st ++ [p_current st].
Proof.
  unfold piece_finish. destruct (piece_parts (p_current st)); [| auto].
  intros Hp. apply elem_of_app. by left.
Qed.

Lemma pieces_from_kept sentences p s :
  p ∈ pieces sentences -> s ∈ sents p ->
  s ∈ sentences /\ tok s <= max_tokens.
Proof.
  intros Hp Hs. apply piece_finish_subset in Hp.
  assert (from_kept sentences piece_init) as Hinit.
  { cbn. apply Forall_singleton. constructor. }
  pose proof (fold_piece_step_from_kept sentences sentences
                piece_init (fun _ H => H) Hinit) as Hall.
  rewrite Forall_forall in Hall. specialize (Hall p Hp).
  rewrite Forall_forall in Hall. apply Hall, Hs.
Qed.

(** *** The token bound *)

Local Abbreviation bounded st :=
  (Forall (fun p => stoks p <= max_tokens) (p_chunks st)
   /\ stoks (p_current st) <= max_tokens
   /\ p_tokens st
      = seed_tokens enc_encode (p_current st) + stoks (p_current st)).

Lemma piece_step_bounded st s :
  bounded st -> bounded (pstep st s).
Proof.
  intros (Hchunks & Hcur & Htok). unfold piece_step.
  destruct (Z.gtb_spec (tok s) max_tokens) as [Hlong | Hfits]; [auto |].
  destruct (Z.gtb_spec (p_tokens st + tok s) max_tokens) as [Hfull | Hroom].
  - unfold piece_close. cbn [p_chunks p_current p_tokens seed sents].
    split; [| split].
    + apply Forall_app. split; [exact Hchunks |].
      apply Forall_singleton. exact Hcur.
    + cbn. rewrite Z.add_0_r. exact Hfits.
    + cbn. rewrite Z.add_0_r. reflexivity.
  - cbn [p_chunks p_current p_tokens]. split; [exact Hchunks |].
    pose proof (seed_tokens_nonneg (p_current st)) as Hseed.
    destruct (p_current st) as [sd ss]. cbn [seed sents].
    rewrite sentence_tokens_snoc.
    change (seed_tokens enc_encode {| seed := sd; sents := ss ++ [s] |})
      with (seed_tokens enc_encode {| seed := sd; sents := ss |}).
    split; lia.
Qed.

Lemma fold_piece_step_bounded sentences : forall st,
  bounded st -> bounded (fold_left pstep sentences st).
Proof.
  induction sentences as [| s rest IH]; intros st Hst; [exact Hst |].
  simpl. apply IH, piece_step_bounded, Hst.
Qed.

Lemma pieces_bounded sentences p :
  0 <= max_tokens -> p ∈ pieces sentences -> stoks p <= max_tokens.
Proof.
  intros Hmax Hp. apply piece_finish_subset in Hp.
  destruct (fold_piece_step_bounded sentences piece_init) as (Hc & Hcur & _).
  { cbn. split; [constructor | split; lia]. }
  apply elem_of_app in Hp as [Hp | Hp].
  - rewrite Forall_forall in Hc. apply Hc, Hp.
  - apply list_elem_of_singleton in Hp as ->. exact Hcur.
Qed.

(** *** The three cases of the loop body *)

Lemma piece_step_skip st s : max_tokens < tok s -> pstep st s = st.
Proof.
  intros H. unfold piece_step.
  rewrite (proj2 (Z.gtb_lt _ _) H). reflexivity.
Qed.

Lemma gtb_le a b : a <= b -> (a >? b) = false.
Proof. intros H. rewrite Z.gtb_ltb. apply Z.ltb_ge. exact H. Qed.

Lemma piece_step_append st s :
  tok s <= max_tokens -> p_tokens st + tok s <= max_tokens ->
  pstep st s
  = {| p_chunks := p_chunks st;
       p_current := {| seed := seed (p_current st);
                       sents := sents (p_current st) ++ [s] |};
       p_tokens := p_tokens st + tok s |}.
Proof.
  intros H1 H2. unfold piece_step. rewrite !gtb_le by assumption.
  reflexivity.
Qed.

Lemma piece_step_close st s :
  tok s <= max_tokens -> max_tokens < p_tokens st + tok s ->
  pstep st s
  = let overlap_txt := overlap_text overlap (piece_text (p_current st)) in
    {| p_chunks := p_chunks st ++ [p_current st];
       p_current := {| seed := Some overlap_txt; sents := [s] |};
       p_tokens := tok overlap_txt + tok s |}.
Proof.
  intros H1 H2. unfold piece_step. rewrite gtb_le by assumption.
  rewrite (proj2 (Z.gtb_lt _ _) H2). reflexivity.
Qed.

End Chunking.

(** C4.  With [max_tokens = 256], every chunk [chunk_text] returns is the
    text of a piece of the run whose sentences, each encoded on its own,
    total at most 256 tokens; the overlap seed of the piece is not part of
    that count (the loop counts it on its own when the chunk is opened). *)
Theorem chunk_token_bound sent_tokenize enc_encode overlap text c :
  c ∈ chunk_text sent_tokenize enc_encode 256 overlap text ->
  exists p,
    p ∈ chunk_pieces enc_encode 256 overlap (sent_tokenize text)
    /\ piece_text p = c
    /\ sentence_tokens enc_encode p <= 256.
Proof.
  unfold chunk_text. intros Hc. apply dedup_subset in Hc.
  rewrite chunk_sentences_pieces in Hc.
  apply list_elem_of_In, in_map_iff in Hc as (p & Htext & Hp).
  apply list_elem_of_In in Hp.
  exists p. split; [exact Hp | split; [exact Htext |]].
  eapply pieces_bounded; [lia | exact Hp].
Qed.

Lemma chunk_token_bound_three_sentences :
  exists p,
    p ∈ chunk_pieces Toy.enc_encode 256 40
          (Toy.sent_tokenize Toy.three_sentences)
    /\ piece_text p = repeat "b"%char 40 ++ [SP] ++ repeat "c"%char 120
    /\ sentence_tokens Toy.enc_encode p <= 256.
Proof.
  apply (chunk_token_bound Toy.sent_tokenize Toy.enc_encode 40
           Toy.three_sentences).
  apply list_elem_of_In. vm_compute. right. left. reflexivity.
Defined.

(** C5.  [chunk_text] runs as if the sentences of more than [max_tokens]
    tokens were not in the text: the pieces are those of the run on the
    other sentences alone, and every sentence of every piece is a sentence
    of the text of at most [max_tokens] tokens. *)
Theorem overlong_sentences_excluded sent_tokenize enc_encode max_tokens
    overlap text :
  let kept := filter (fun s => tokens enc_encode s <= max_tokens)
                     (sent_tokenize text) in
  let pieces := chunk_pieces enc_encode max_tokens overlap
                             (sent_tokenize text) in
  chunk_text sent_tokenize enc_encode max_tokens overlap text
  = _deduplicate_chunks (map piece_text pieces)
  /\ pieces = chunk_pieces enc_encode max_tokens overlap kept
  /\ (forall p s, p ∈ pieces -> s ∈ sents p ->
                  s ∈ sent_tokenize text
                  /\ tokens enc_encode s <= max_tokens)
  /\ (forall p s, p ∈ pieces -> max_tokens < tokens enc_encode s ->
                  s ∉ sents p).
Proof.
  cbn zeta. split; [| split; [| split]].
  - unfold chunk_text. rewrite chunk_sentences_pieces. reflexivity.
  - unfold chunk_pieces. rewrite fold_piece_step_filter. reflexivity.
  - intros p s. apply pieces_from_kept.
  - intros p s Hp Hlong Hs.
    destruct (pieces_from_kept _ _ _ _ p s Hp Hs) as [_ Hle]. lia.
Qed.

Example overlong_sentence_dropped :
  chunk_text Toy.sent_tokenize Toy.enc_encode 5 2
    (lit "abc" ++ [NL] ++ lit "de" ++ [NL] ++ lit "toolong" ++ [NL]
       ++ lit "fgh")
  = [lit "abc de"; lit "de fgh"].
Proof. vm_compute. reflexivity. Qed.

(** C10.  Two sentences [s1], [s2] that fit the limit each but not
    together: the second chunk is seeded with the overlap text of the first
    and [s2] is appended without a further test, so whenever the tokens of
    the seed and of [s2] exceed [max_tokens], that chunk is returned with
    more than [max_tokens] tokens, seed included. *)
Theorem seeded_chunk_exceeds_bound sent_tokenize enc_encode max_tokens
    overlap text s1 s2 :
  sent_tokenize text = [s1; s2] ->
  tokens enc_encode s1 <= max_tokens ->
  tokens enc_encode s2 <= max_tokens ->
  max_tokens < tokens enc_encode s1 + tokens enc_encode s2 ->
  max_tokens < tokens enc_encode (overlap_text overlap s1)
               + tokens enc_encode s2 ->
  md5_hex s1 <> md5_hex (overlap_text overlap s1 ++ [SP] ++ s2) ->
  let p := {| seed := Some (overlap_text overlap s1); sents := [s2] |} in
  chunk_pieces enc_encode max_tokens overlap (sent_tokenize text)
  = [{| seed := None; sents := [s1] |}; p]
  /\ piece_text p ∈ chunk_text sent_tokenize enc_encode max_tokens overlap text
  /\ max_tokens < seed_tokens enc_encode p + sentence_tokens enc_encode p.
Proof.
  intros Hsent H1 H2 H12 Hover Hmd5 p.
  assert (chunk_pieces enc_encode max_tokens overlap [s1; s2]
          = [{| seed := None; sents := [s1] |}; p]) as Hpieces.
  { unfold chunk_pieces. cbn [fold_left].
    rewrite (piece_step_append _ _ _ piece_init s1) by (cbn; lia).
    rewrite piece_step_close by (cbn; lia). reflexivity. }
  split; [| split].
  - rewrite Hsent. exact Hpieces.
  - unfold chunk_text. rewrite Hsent, chunk_sentences_pieces, Hpieces.
    rewrite DedupSpec.dedup_unfold. cbn [map dedup_from].
    change (piece_text {| seed := None; sents := [s1] |}) with s1.
    change (piece_text p) with (overlap_text overlap s1 ++ [SP] ++ s2).
    rewrite decide_False by apply not_elem_of_empty.
    rewrite decide_False.
    2:{ rewrite elem_of_union, elem_of_singleton. intros [H | H];
          [congruence | by apply not_elem_of_empty in H]. }
    apply elem_of_cons. right. apply elem_of_cons. by left.
  - unfold p, seed_tokens, sentence_tokens. cbn. lia.
Qed.

Lemma seeded_chunk_exceeds_bound_default :
  let p := {| seed := Some (lit "Intro."); sents := [repeat "x"%char 256] |} in
  chunk_pieces Toy.enc_encode 256 40 (Toy.sent_tokenize Toy.short_then_long)
  = [{| seed := None; sents := [lit "Intro."] |}; p]
  /\ piece_text p
     ∈ chunk_text Toy.sent_tokenize Toy.enc_encode 256 40 Toy.short_then_long
  /\ 256 < seed_tokens Toy.enc_encode p + sentence_tokens Toy.enc_encode p.
Proof.
  apply (seeded_chunk_exceeds_bound Toy.sent_tokenize Toy.enc_encode 256 40
           Toy.short_then_long (lit "Intro.") (repeat "x"%char 256)).
  - vm_compute. reflexivity.
  - vm_compute. discriminate.
  - vm_compute. discriminate.
  - vm_compute. reflexivity.
  - vm_compute. reflexivity.
  - apply (proj1 (bool_decide_eq_false _)). vm_compute. reflexivity.
Defined.

Example seeded_chunk_token_count :
  map (fun p => (seed_tokens Toy.enc_encode p, sentence_tokens Toy.enc_encode p))
      (chunk_pieces Toy.enc_encode 256 40
         (Toy.sent_tokenize Toy.short_then_long))
  = [(0, 6); (6, 256)].
Proof. vm_compute. reflexivity. Qed.

End ChunkSpec.

(* ===================================================================== *)
(** * Theorems: [clean_text]                                              *)
(* ===================================================================== *)

Module CleanSpec.
Import PreProcessor.

(** ** [strip] *)

Lemma lstrip_suffix s : exists before, s = before ++ lstrip s.
Proof.
  induction s as [| c r [before IH]]; simpl.
  - exists []. reflexivity.
  - destruct (isspace c).
    + exists (c :: before). simpl. f_equal. exact IH.
    + exists []. reflexivity.
Qed.

Lemma rstrip_prefix s : exists after, s = rstrip s ++ after.
Proof.
  unfold rstrip. destruct (lstrip_suffix (rev s)) as [before H].
  exists (rev before). rewrite <- rev_app_distr, <- H.
  symmetry. apply rev_involutive.
Qed.

Lemma strip_infix s : exists before after, s = before ++ strip s ++ after.
Proof.
  unfold strip. destruct (lstrip_suffix s) as [before H].
  destruct (rstrip_prefix (lstrip s)) as [after H'].
  exists before, after. rewrite <- H'. exact H.
Qed.

Lemma lstrip_head s : head_in isspace (lstrip s) = false.
Proof.
  induction s as [| c r IH]; simpl; [reflexivity |].
  destruct (isspace c) eqn:E; [exact IH | simpl; exact E].
Qed.

Lemma lstrip_fixed s : head_in isspace s = false -> lstrip s = s.
Proof. destruct s as [| c r]; simpl; [reflexivity | intros ->; reflexivity]. Qed.

Lemma rstrip_head s : head_in isspace s = false ->
  head_in isspace (rstrip s) = false.
Proof.
  intros Hs. destruct (rstrip_prefix s) as [after H].
  destruct (rstrip s) as [| c r]; [reflexivity |].
  rewrite H in Hs. exact Hs.
Qed.

Lemma rstrip_idem s : rstrip (rstrip s) = rstrip s.
Proof.
  unfold rstrip. rewrite rev_involutive.
  rewrite (lstrip_fixed (lstrip (rev s))) by apply lstrip_head.
  reflexivity.
Qed.

Lemma strip_idem s : strip (strip s) = strip s.
Proof.
  unfold strip.
  rewrite (lstrip_fixed (rstrip (lstrip s)))
    by apply rstrip_head, lstrip_head.
  apply rstrip_idem.
Qed.

(** ** Strings without neighbours in a class *)

Section Classes.

Variable cls : ascii -> bool.

Lemma no_adjacent_nil : no_adjacent cls [].
Proof. intros before a b after H. destruct before; discriminate. Qed.

Lemma no_adjacent_cons a r :
  no_adjacent cls (a :: r) <->
  (cls a = true -> head_in cls r = false) /\ no_adjacent cls r.
Proof.
  split.
  - intros H. split.
    + intros Ha. destruct r as [| b r']; [reflexivity |]. simpl.
      destruct (cls b) eqn:Hb; [| reflexivity].
      exfalso. exact (H [] a b r' eq_refl Ha Hb).
    + intros before x y after ->. exact (H (a :: before) x y after eq_refl).
  - intros [Hhead Hr] before x y after Heq Hx Hy.
    destruct before as [| z before]; simpl in Heq.
    + injection Heq as E1 E2. subst. specialize (Hhead Hx).
      simpl in Hhead. congruence.
    + injection Heq as E1 E2. subst.
      exact (Hr before x y after eq_refl Hx Hy).
Qed.

Lemma no_adjacent_infix before s after :
  no_adjacent cls (before ++ s ++ after) -> no_adjacent cls s.
Proof.
  intros H l1 a b l2 ->.
  apply (H (before ++ l1) a b (l2 ++ after)).
  rewrite <- !app_assoc. reflexivity.
Qed.

Lemma run_length_head s : head_in cls s = false -> run_length cls s = O.
Proof. destruct s as [| c r]; simpl; [reflexivity | intros ->; reflexivity]. Qed.

Lemma head_run_length s : run_length cls s = O -> head_in cls s = false.
Proof.
  destruct s as [| c r]; simpl; [reflexivity |].
  destruct (cls c); [discriminate | reflexivity].
Qed.

(** *** The equations of [re_sub_runs] *)

Variables (min : nat) (repl : str).

Local Abbreviation R := (re_sub_runs cls min repl).

Lemma re_sub_runs_other b c r :
  cls c = false -> R b (c :: r) = c :: R false r.
Proof. intros H. simpl. rewrite H. reflexivity. Qed.

Lemma re_sub_runs_inside c r : cls c = true -> R true (c :: r) = R true r.
Proof. intros H. simpl. rewrite H. reflexivity. Qed.

Lemma re_sub_runs_start c r :
  cls c = true -> (min <= S (run_length cls r))%nat ->
  R false (c :: r) = repl ++ R true r.
Proof.
  intros H Hmin. simpl. rewrite H.
  destruct (Nat.leb_spec min (S (run_length cls r))); [reflexivity | lia].
Qed.

Lemma re_sub_runs_short c r :
  cls c = true -> (S (run_length cls r) < min)%nat ->
  R false (c :: r) = c :: R false r.
Proof.
  intros H Hmin. simpl. rewrite H.
  destruct (Nat.leb_spec min (S (run_length cls r))); [lia | reflexivity].
Qed.

Lemma re_sub_runs_leave_run s :
  head_in cls s = false -> R true s = R false s.
Proof.
  destruct s as [| c r]; [reflexivity |]. intros H. simpl in H.
  rewrite !re_sub_runs_other by exact H. reflexivity.
Qed.

(** Nothing to replace when every run is shorter than [min]. *)
Lemma re_sub_runs_fixed_2 s :
  (2 <= min)%nat -> no_adjacent cls s -> R false s = s.
Proof.
  intros Hmin. induction s as [| c r IH]; [reflexivity |].
  intros [Hhead Hr]%no_adjacent_cons.
  destruct (cls c) eqn:Hc.
  - rewrite re_sub_runs_short; [f_equal; auto | exact Hc |].
    rewrite run_length_head by auto. lia.
  - rewrite re_sub_runs_other by exact Hc. f_equal. auto.
Qed.

End Classes.

Section Replace.

(** Runs of [cls] replaced by the one character [x]. *)
Variables (cls : ascii -> bool) (min : nat) (x : ascii).

Local Abbreviation R := (re_sub_runs cls min [x]).

Lemma re_sub_runs_Forall (P : ascii -> Prop) s b :
  P x -> Forall P s -> Forall P (R b s).
Proof.
  intros Hx Hs. revert b. induction Hs as [| c r Hc Hr IH]; intros b.
  - constructor.
  - simpl. destruct (cls c); [| constructor; auto].
    destruct b; [apply IH |].
    destruct (min <=? _)%nat; constructor; auto.
Qed.

(** With [min] 1 or 2 no two characters of the class are left side by
    side. *)
Lemma re_sub_runs_no_adjacent s :
  (min <= 2)%nat -> cls x = true ->
  (no_adjacent cls (R false s)
   /\ (head_in cls s = false -> head_in cls (R false s) = false))
  /\ no_adjacent cls (R true s) /\ head_in cls (R true s) = false.
Proof.
  intros Hmin Hx. induction s as [| c r IH].
  - simpl. repeat split; auto using no_adjacent_nil.
  - destruct IH as [[IHf IHhead] [IHt IHthead]].
    destruct (cls c) eqn:Hc.
    + rewrite re_sub_runs_inside by exact Hc.
      split; [| split; assumption].
      split; [| simpl; congruence].
      destruct (Nat.leb_spec min (S (run_length cls r))) as [Hle | Hgt].
      * rewrite re_sub_runs_start by assumption.
        apply no_adjacent_cons. split; auto.
      * rewrite re_sub_runs_short by assumption.
        apply no_adjacent_cons. split; [| exact IHf].
        intros _. apply IHhead, head_run_length. lia.
    + rewrite !re_sub_runs_other by exact Hc.
      assert (no_adjacent cls (c :: R false r)) as Hout.
      { apply no_adjacent_cons. split; [congruence | exact IHf]. }
      repeat split; auto.
Qed.

(** With [min] 1 every character of the class that is left is [x]. *)
Lemma re_sub_runs_only_x s b :
  min = 1%nat -> Forall (fun c => cls c = true -> c = x) (R b s).
Proof.
  intros ->. revert b. induction s as [| c r IH]; intros b.
  - constructor.
  - destruct (cls c) eqn:Hc.
    + destruct b.
      * rewrite re_sub_runs_inside by exact Hc. apply IH.
      * rewrite re_sub_runs_start by (exact Hc || lia).
        constructor; [reflexivity | apply IH].
    + rewrite re_sub_runs_other by exact Hc.
      constructor; [congruence | apply IH].
Qed.

Lemma re_sub_runs_fixed_1 s :
  min = 1%nat -> no_adjacent cls s ->
  Forall (fun c => cls c = true -> c = x) s -> R false s = s.
Proof.
  intros ->. induction s as [| c r IH]; [reflexivity |].
  intros [Hhead Hr]%no_adjacent_cons Hall.
  apply Forall_cons in Hall as [Hc Hall].
  destruct (cls c) eqn:Hcls.
  - rewrite re_sub_runs_start by (exact Hcls || lia).
    rewrite re_sub_runs_leave_run by auto.
    rewrite IH by assumption. rewrite Hc by reflexivity. reflexivity.
  - rewrite re_sub_runs_other by exact Hcls. f_equal. auto.
Qed.

(** Another class [cls'], apart from [cls] and from [x], keeps having no
    neighbours. *)
Variable cls' : ascii -> bool.
Hypothesis apart : forall c, cls c = true -> cls' c = false.
Hypothesis x_apart : cls' x = false.

Lemma re_sub_runs_head_other s :
  head_in cls' (R false s) = head_in cls' s.
Proof.
  destruct s as [| c r]; [reflexivity |].
  destruct (cls c) eqn:Hc.
  - simpl head_in at 2. rewrite (apart c Hc).
    destruct (Nat.leb_spec min (S (run_length cls r))).
    + rewrite re_sub_runs_start by assumption. exact x_apart.
    + rewrite re_sub_runs_short by assumption. simpl. auto.
  - rewrite re_sub_runs_other by exact Hc. reflexivity.
Qed.

Lemma re_sub_runs_keeps_no_adjacent s :
  no_adjacent cls' s ->
  no_adjacent cls' (R false s) /\ no_adjacent cls' (R true s).
Proof.
  induction s as [| c r IH].
  - simpl. auto.
  - intros [Hhead Hr]%no_adjacent_cons. destruct (IH Hr) as [IHf IHt].
    destruct (cls c) eqn:Hc.
    + rewrite re_sub_runs_inside by exact Hc. split; [| exact IHt].
      destruct (Nat.leb_spec min (S (run_length cls r))).
      * rewrite re_sub_runs_start by assumption.
        apply no_adjacent_cons. split; [congruence | exact IHt].
      * rewrite re_sub_runs_short by assumption.
        apply no_adjacent_cons. split; [| exact IHf].
        rewrite (apart c Hc). discriminate.
    + rewrite !re_sub_runs_other by exact Hc.
      assert (no_adjacent cls' (c :: R false r)) as Hout.
      { apply no_adjacent_cons. split; [| exact IHf].
        rewrite re_sub_runs_head_other. exact Hhead. }
      split; exact Hout.
Qed.

End Replace.

Lemma re_sub_chr_fixed cls repl s :
  Forall (fun c => cls c = false) s -> re_sub_chr cls repl s = s.
Proof.
  unfold re_sub_chr. induction 1 as [| c r Hc Hr IH]; [reflexivity |].
  cbn [flat_map]. rewrite Hc, IH. reflexivity.
Qed.

(** ** [clean_text] *)

Lemma is_blank_inv c : is_blank c = true -> c = SP \/ c = TAB.
Proof.
  unfold is_blank, chr_eqb. rewrite orb_true_iff, !Ascii.eqb_eq. auto.
Qed.

Lemma blank_not_nl c : is_blank c = true -> is_nl c = false.
Proof. intros [-> | ->]%is_blank_inv; reflexivity. Qed.

Lemma no_ff_Forall s : FF ∉ s <-> Forall (fun c => is_ff c = false) s.
Proof.
  rewrite Forall_forall. unfold is_ff, chr_eqb. split.
  - intros H c Hc. destruct (Ascii.eqb_spec c FF); [subst; tauto | reflexivity].
  - intros H Hin. specialize (H FF Hin). discriminate.
Qed.

Lemma Forall_infix {A} (P : A -> Prop) before s after :
  Forall P (before ++ s ++ after) -> Forall P s.
Proof. intros [_ [H _]%Forall_app]%Forall_app. exact H. Qed.

(** What [clean_text] leaves alone. *)
Lemma clean_text_fixed r :
  no_adjacent is_nl r -> no_adjacent is_blank r ->
  Forall (fun c => is_blank c = true -> c = SP) r ->
  Forall (fun c => is_ff c = false) r ->
  strip r = r ->
  clean_text r = r.
Proof.
  intros Hnl Hblank Hsp Hff Hstrip. unfold clean_text.
  rewrite (re_sub_runs_fixed_2 is_nl 2 [NL] r) by (lia || exact Hnl).
  rewrite (re_sub_runs_fixed_1 is_blank 1 SP r)
    by (reflexivity || assumption).
  rewrite re_sub_chr_fixed by exact Hff.
  exact Hstrip.
Qed.

Lemma re_sub_chr_removes cls s :
  Forall (fun c => cls c = false) (re_sub_chr cls [] s).
Proof.
  unfold re_sub_chr. induction s as [| c r IH]; [constructor |].
  cbn [flat_map]. destruct (cls c) eqn:E; [exact IH |].
  constructor; [exact E | exact IH].
Qed.

(** The form feeds are gone after [clean_text]. *)
Lemma clean_text_no_ff text : FF ∉ clean_text text.
Proof.
  unfold clean_text. apply no_ff_Forall.
  match goal with |- Forall _ (strip ?t) =>
    destruct (strip_infix t) as (before & after & H);
    apply (Forall_infix _ before _ after); rewrite <- H end.
  apply re_sub_chr_removes.
Qed.

(** On a text without form feed the result of [clean_text] has nothing
    left to collapse, to remove or to trim. *)
Lemma clean_text_normal text :
  Forall (fun c => is_ff c = false) text ->
  let r := clean_text text in
  no_adjacent is_nl r /\ no_adjacent is_blank r
  /\ Forall (fun c => is_blank c = true -> c = SP) r
  /\ Forall (fun c => is_ff c = false) r
  /\ strip r = r.
Proof.
  intros Hff.
  pose (t1 := re_sub_runs is_nl 2 [NL] false text).
  pose (t2 := re_sub_runs is_blank 1 [SP] false t1).
  assert (Forall (fun c => is_ff c = false) t2) as Hff2.
  { apply re_sub_runs_Forall; [reflexivity |].
    apply re_sub_runs_Forall; [reflexivity | exact Hff]. }
  assert (clean_text text = strip t2) as ->.
  { unfold clean_text. fold t1. fold t2.
    rewrite re_sub_chr_fixed by exact Hff2. reflexivity. }
  destruct (strip_infix t2) as (before & after & Hinfix).
  assert (no_adjacent is_nl t2) as Hnl.
  { apply re_sub_runs_keeps_no_adjacent;
      [exact blank_not_nl | reflexivity |].
    apply (re_sub_runs_no_adjacent is_nl 2 NL text); [lia | reflexivity]. }
  assert (no_adjacent is_blank t2) as Hblank.
  { apply (re_sub_runs_no_adjacent is_blank 1 SP t1); [lia | reflexivity]. }
  assert (Forall (fun c => is_blank c = true -> c = SP) t2) as Hsp.
  { apply re_sub_runs_only_x. reflexivity. }
  rewrite Hinfix in Hnl, Hblank, Hsp, Hff2.
  cbn zeta. split; [| split; [| split; [| split]]].
  - eapply no_adjacent_infix, Hnl.
  - eapply no_adjacent_infix, Hblank.
  - eapply Forall_infix, Hsp.
  - eapply Forall_infix, Hff2.
  - apply strip_idem.
Qed.

(** C2, as amended.  On a text without form feed, [clean_text] applied
    twice gives what it gives applied once. *)
Theorem clean_text_idempotent_without_ff text :
  FF ∉ text -> clean_text (clean_text text) = clean_text text.
Proof.
  intros Hff%no_ff_Forall.
  destruct (clean_text_normal text Hff) as (Hnl & Hblank & Hsp & Hff' & Hs).
  apply clean_text_fixed; assumption.
Qed.

Lemma clean_text_idempotent_messy :
  clean_text (clean_text Toy.messy_text) = clean_text Toy.messy_text.
Proof.
  apply (clean_text_idempotent_without_ff Toy.messy_text).
  apply (proj1 (bool_decide_eq_false (FF ∈ Toy.messy_text))).
  vm_compute. reflexivity.
Defined.

Example clean_text_messy :
  clean_text Toy.messy_text
  = lit "Hello world again " ++ [NL] ++ lit "next line".
Proof. vm_compute. reflexivity. Qed.

(** From the second application on, [clean_text] changes nothing, form
    feed or not. *)
Corollary clean_text_settles text :
  clean_text (clean_text (clean_text text)) = clean_text (clean_text text).
Proof.
  pose proof (clean_text_no_ff text) as Hff%no_ff_Forall.
  destruct (clean_text_normal _ Hff) as (Hnl & Hblank & Hsp & Hff' & Hs).
  apply clean_text_fixed; assumption.
Qed.

(** C2 fails as stated: a form feed between two newlines is removed
    after the newlines were collapsed, so the first application leaves two
    newlines side by side and the second one collapses them. *)
Lemma clean_text_not_idempotent :
  clean_text Toy.page_break_text = lit "a" ++ [NL; NL] ++ lit "b"
  /\ clean_text (clean_text Toy.page_break_text) = lit "a" ++ [NL] ++ lit "b"
  /\ clean_text (clean_text Toy.page_break_text)
     <> clean_text Toy.page_break_text.
Proof.
  split; [| split].
  - vm_compute. reflexivity.
  - vm_compute. reflexivity.
  - vm_compute. discriminate.
Qed.

End CleanSpec.

(* ===================================================================== *)
(** * Further properties: [clean_text] and [filter_noise]                 *)
(* ===================================================================== *)

Module CleanMore.
Import PreProcessor CleanSpec.

Lemma re_sub_runs_length cls min x s : forall b,
  (length (re_sub_runs cls min [x] b s) <= length s)%nat.
Proof.
  induction s as [| c r IH]; intros b; simpl; [lia |].
  destruct (cls c); [| simpl; specialize (IH false); lia].
  destruct b; [specialize (IH true); lia |].
  destruct (min <=? _)%nat; simpl;
    [specialize (IH true) | specialize (IH false)]; lia.
Qed.

Lemma re_sub_chr_length cls s :
  (length (re_sub_chr cls [] s) <= length s)%nat.
Proof.
  unfold re_sub_chr. induction s as [| c r IH]; simpl; [lia |].
  destruct (cls c); simpl; lia.
Qed.

Lemma re_sub_chr_Forall (P : ascii -> Prop) cls s :
  Forall P s -> Forall P (re_sub_chr cls [] s).
Proof.
  unfold re_sub_chr. induction 1 as [| c r Hc Hr IH]; [constructor |].
  cbn [flat_map]. destruct (cls c); [exact IH | constructor; assumption].
Qed.

Lemma strip_length s : (length (strip s) <= length s)%nat.
Proof.
  destruct (strip_infix s) as (before & after & H).
  rewrite H at 2. rewrite !length_app. lia.
Qed.

Lemma strip_Forall (P : ascii -> Prop) s : Forall P s -> Forall P (strip s).
Proof.
  destruct (strip_infix s) as (before & after & H). intros Hs.
  rewrite H in Hs. eapply Forall_infix, Hs.
Qed.

(** X1.  Whatever the text, [clean_text] returns a text without form feed and
    without tab, with no white space at either end, and never longer than what
    it was given. *)
Theorem clean_text_shape text :
  (FF ∉ clean_text text)
  /\ (TAB ∉ clean_text text)
  /\ strip (clean_text text) = clean_text text
  /\ (length (clean_text text) <= length text)%nat.
Proof.
  split; [apply clean_text_no_ff |]. split; [| split].
  - unfold clean_text.
    assert (Forall (fun c => c <> TAB)
              (strip (re_sub_chr is_ff []
                 (re_sub_runs is_blank 1 [SP] false
                    (re_sub_runs is_nl 2 [NL] false text))))) as Hall.
    { apply strip_Forall, re_sub_chr_Forall.
      eapply Forall_impl; [apply re_sub_runs_only_x; reflexivity |].
      intros c Hc ->. specialize (Hc eq_refl). discriminate. }
    rewrite Forall_forall in Hall. intros Hin. exact (Hall TAB Hin eq_refl).
  - unfold clean_text. apply strip_idem.
  - unfold clean_text.
    etransitivity; [apply strip_length |].
    etransitivity; [apply re_sub_chr_length |].
    etransitivity; [apply re_sub_runs_length |].
    apply re_sub_runs_length.
Qed.

(** X2.  On a text without form feed, the result of [clean_text] has no two
    newlines and no two spaces side by side. *)
Theorem clean_text_collapsed text :
  FF ∉ text ->
  forall before after,
    clean_text text <> before ++ [NL; NL] ++ after
    /\ clean_text text <> before ++ [SP; SP] ++ after.
Proof.
  intros Hff%no_ff_Forall before after.
  destruct (clean_text_normal text Hff) as (Hnl & Hblank & _).
  split; intros Heq.
  - exact (Hnl before NL NL after Heq eq_refl eq_refl).
  - exact (Hblank before SP SP after Heq eq_refl eq_refl).
Qed.

Lemma clean_text_collapsed_messy :
  (FF ∉ Toy.messy_text)
  /\ (forall before after,
        clean_text Toy.messy_text <> before ++ [NL; NL] ++ after
        /\ clean_text Toy.messy_text <> before ++ [SP; SP] ++ after).
Proof.
  assert (Hff : FF ∉ Toy.messy_text).
  { apply (proj1 (bool_decide_eq_false (FF ∈ Toy.messy_text))).
    vm_compute. reflexivity. }
  split; [exact Hff |].
  exact (clean_text_collapsed Toy.messy_text Hff).
Defined.

End CleanMore.

Module NoiseSpec.
Import PreProcessor.

(** ** [str.split] and [str.join] on lines *)

Lemma chr_eqb_eq a b : chr_eqb a b = true <-> a = b.
Proof. apply Ascii.eqb_eq. Qed.

Lemma chr_eqb_neq a b : chr_eqb a b = false <-> a <> b.
Proof. apply Ascii.eqb_neq. Qed.

Lemma split_chr_nonempty sep s : split_chr sep s <> [].
Proof.
  destruct s as [| c r]; simpl; [discriminate |].
  destruct (chr_eqb c sep); [discriminate |].
  destruct (split_chr sep r); discriminate.
Qed.

Lemma join_cons_head sep c w ws :
  join sep ((c :: w) :: ws) = c :: join sep (w :: ws).
Proof. destruct ws; reflexivity. Qed.

Lemma join_split sep s : join [sep] (split_chr sep s) = s.
Proof.
  induction s as [| c r IH]; [reflexivity |]. cbn [split_chr].
  pose proof (split_chr_nonempty sep r) as Hne.
  destruct (split_chr sep r) as [| w ws]; [congruence |].
  destruct (chr_eqb c sep) eqn:E.
  - apply chr_eqb_eq in E. subst c.
    change (join [sep] ([] :: w :: ws)) with (sep :: join [sep] (w :: ws)).
    f_equal. exact IH.
  - rewrite join_cons_head. f_equal. exact IH.
Qed.

Lemma split_app_sep sep p s :
  sep ∉ p -> split_chr sep (p ++ sep :: s) = p :: split_chr sep s.
Proof.
  induction p as [| c p IH]; intros Hp; simpl.
  - replace (chr_eqb sep sep) with true
      by (symmetry; apply chr_eqb_eq; reflexivity).
    reflexivity.
  - apply not_elem_of_cons in Hp as [Hc Hp].
    replace (chr_eqb c sep) with false
      by (symmetry; apply chr_eqb_neq; congruence).
    rewrite IH by exact Hp. reflexivity.
Qed.

Lemma split_no_sep sep p : sep ∉ p -> split_chr sep p = [p].
Proof.
  induction p as [| c p IH]; intros Hp; simpl; [reflexivity |].
  apply not_elem_of_cons in Hp as [Hc Hp].
  replace (chr_eqb c sep) with false
    by (symmetry; apply chr_eqb_neq; congruence).
  rewrite IH by exact Hp. reflexivity.
Qed.

Lemma split_join sep ls :
  ls <> [] -> Forall (fun l => sep ∉ l) ls ->
  split_chr sep (join [sep] ls) = ls.
Proof.
  induction ls as [| p rest IH]; [congruence |]. intros _ Hall.
  apply Forall_cons in Hall as [Hp Hrest].
  destruct rest as [| q rest].
  - simpl. apply split_no_sep, Hp.
  - change (join [sep] (p :: q :: rest))
      with (p ++ sep :: join [sep] (q :: rest)).
    rewrite split_app_sep by exact Hp. f_equal.
    apply IH; [discriminate | exact Hrest].
Qed.

Lemma split_chr_no_sep sep s : Forall (fun l => sep ∉ l) (split_chr sep s).
Proof.
  induction s as [| c r IH]; simpl.
  - constructor; [apply not_elem_of_nil | constructor].
  - destruct (chr_eqb c sep) eqn:E.
    + constructor; [apply not_elem_of_nil | exact IH].
    + apply chr_eqb_neq in E.
      destruct (split_chr sep r) as [| w ws].
      * constructor; [| constructor].
        apply not_elem_of_cons. split; [congruence | apply not_elem_of_nil].
      * apply Forall_cons in IH as [Hw Hws]. constructor; [| exact Hws].
        apply not_elem_of_cons. split; [congruence | exact Hw].
Qed.

(** ** The lines that are kept *)

Lemma filter_Forall {A} (f : A -> bool) (P : A -> Prop) l :
  Forall P l -> Forall P (List.filter f l).
Proof.
  induction 1 as [| x l Hx Hl IH]; simpl; [constructor |].
  destruct (f x); [constructor; assumption | exact IH].
Qed.

Lemma filter_passes {A} (f : A -> bool) l :
  Forall (fun x => f x = true) (List.filter f l).
Proof.
  induction l as [| x l IH]; simpl; [constructor |].
  destruct (f x) eqn:E; [constructor; assumption | exact IH].
Qed.

Lemma filter_fixed {A} (f : A -> bool) l :
  Forall (fun x => f x = true) l -> List.filter f l = l.
Proof.
  induction 1 as [| x l Hx Hl IH]; simpl; [reflexivity |].
  rewrite Hx, IH. reflexivity.
Qed.

Lemma keep_line_nonempty ln : keep_line ln = true -> ln <> [].
Proof. intros H ->. vm_compute in H. discriminate. Qed.

Lemma join_kept_nonempty sep ls :
  ls <> [] -> Forall (fun l => keep_line l = true) ls -> join sep ls <> [].
Proof.
  destruct ls as [| p rest]; [congruence |]. intros _ Hall.
  apply Forall_cons in Hall as [Hp _]. apply keep_line_nonempty in Hp.
  destruct p as [| c p]; [congruence |].
  rewrite join_cons_head. discriminate.
Qed.

Lemma filter_noise_empty_or_kept text :
  let kept := List.filter keep_line (split_chr NL text) in
  (kept = [] /\ filter_noise text = [])
  \/ (kept <> [] /\ filter_noise text <> []
      /\ split_chr NL (filter_noise text) = kept).
Proof.
  cbn zeta. unfold filter_noise.
  destruct (List.filter keep_line (split_chr NL text)) as [| p rest] eqn:E.
  - left. split; reflexivity.
  - right. rewrite <- E. split; [rewrite E; discriminate |]. split.
    + apply join_kept_nonempty; [rewrite E; discriminate |].
      apply filter_passes.
    + apply split_join; [rewrite E; discriminate |].
      apply filter_Forall, split_chr_no_sep.
Qed.


(** X4.  [filter_noise] applied twice gives what it gives applied once. *)
Theorem filter_noise_idempotent text :
  filter_noise (filter_noise text) = filter_noise text.
Proof.
  destruct (filter_noise_empty_or_kept text) as [[_ Hempty] | (_ & Hne & Hsplit)].
  - rewrite Hempty. reflexivity.
  - unfold filter_noise at 1. rewrite Hsplit.
    rewrite filter_fixed by apply filter_passes. reflexivity.
Qed.

End NoiseSpec.

(* ===================================================================== *)
(** * Further properties: [_deduplicate_chunks]                           *)
(* ===================================================================== *)

Module DedupMore.
Import PreProcessor DedupSpec.

Lemma dedup_from_sublist chunks : forall seen,
  dedup_from seen chunks `sublist_of` chunks.
Proof.
  induction chunks as [| c rest IH]; intros seen; simpl; [constructor |].
  case_decide; [apply sublist_cons | apply sublist_skip]; apply IH.
Qed.

(** The digests of what is kept are new and pairwise different. *)
Lemma dedup_from_digests chunks : forall seen,
  NoDup (map md5_hex (dedup_from seen chunks))
  /\ forall c, c ∈ dedup_from seen chunks -> md5_hex c ∉ seen.
Proof.
  induction chunks as [| c rest IH]; intros seen; simpl.
  - split; [constructor | intros c Hc; inversion Hc].
  - case_decide as Hin; [apply IH |].
    destruct (IH ({[md5_hex c]} ∪ seen)) as [Hnd Hnew]. split.
    + cbn [map]. constructor; [| exact Hnd].
      intros Hc. apply list_elem_of_In, in_map_iff in Hc as (x & Hx & Hxin).
      apply list_elem_of_In in Hxin. apply (Hnew x Hxin).
      apply elem_of_union. left. apply elem_of_singleton. congruence.
    + intros x [-> | Hx]%elem_of_cons; [exact Hin |].
      intros Hseen. apply (Hnew x Hx). apply elem_of_union. by right.
Qed.

(** Every digest of the input is in [seen] or among what is kept. *)
Lemma dedup_from_covers chunks : forall seen c,
  c ∈ chunks ->
  md5_hex c ∈ seen
  \/ exists c', c' ∈ dedup_from seen chunks /\ md5_hex c' = md5_hex c.
Proof.
  induction chunks as [| x rest IH]; intros seen c Hc; [inversion Hc |].
  simpl. apply elem_of_cons in Hc as [-> | Hc].
  - case_decide as Hin; [by left |]. right. exists x.
    split; [apply elem_of_cons; by left | reflexivity].
  - case_decide as Hin.
    + apply IH, Hc.
    + destruct (IH ({[md5_hex x]} ∪ seen) c Hc) as [Hs | (c' & Hc' & Heq)].
      * apply elem_of_union in Hs as [Hs | Hs]; [| by left].
        apply elem_of_singleton in Hs. right. exists x.
        split; [apply elem_of_cons; by left | congruence].
      * right. exists c'. split; [apply elem_of_cons; by right | exact Heq].
Qed.

(** A list whose digests are new and pairwise different is kept whole. *)
Lemma dedup_from_fixed chunks : forall seen,
  NoDup (map md5_hex chunks) ->
  (forall c, c ∈ chunks -> md5_hex c ∉ seen) ->
  dedup_from seen chunks = chunks.
Proof.
  induction chunks as [| c rest IH]; intros seen Hnd Hnew; [reflexivity |].
  simpl. cbn [map] in Hnd. apply NoDup_cons in Hnd as [Hc Hnd].
  rewrite decide_False by (apply Hnew, elem_of_cons; by left).
  f_equal. apply IH; [exact Hnd |].
  intros x Hx [Hs | Hs]%elem_of_union.
  - apply elem_of_singleton in Hs. apply Hc.
    rewrite <- Hs. apply list_elem_of_In, in_map, list_elem_of_In, Hx.
  - apply (Hnew x); [apply elem_of_cons; by right | exact Hs].
Qed.

(** X5.  Whatever the list, [_deduplicate_chunks] returns some of its chunks in
    their order, no two of them with the same MD5 digest, and one for every
    digest of the list. *)
Theorem dedup_one_per_digest chunks :
  _deduplicate_chunks chunks `sublist_of` chunks
  /\ NoDup (map md5_hex (_deduplicate_chunks chunks))
  /\ (forall c, c ∈ chunks ->
        exists c', c' ∈ _deduplicate_chunks chunks
                   /\ md5_hex c' = md5_hex c).
Proof.
  rewrite dedup_unfold. split; [apply dedup_from_sublist |].
  split; [apply dedup_from_digests |].
  intros c Hc. destruct (dedup_from_covers chunks ∅ c Hc) as [Hs | H];
    [by apply not_elem_of_empty in Hs | exact H].
Qed.

(** X6.  Deduplicating what was deduplicated changes nothing. *)
Theorem dedup_idempotent chunks :
  _deduplicate_chunks (_deduplicate_chunks chunks)
  = _deduplicate_chunks chunks.
Proof.
  rewrite !dedup_unfold.
  destruct (dedup_from_digests chunks ∅) as [Hnd _].
  apply dedup_from_fixed; [exact Hnd |].
  intros c _. apply not_elem_of_empty.
Qed.

End DedupMore.

(* ===================================================================== *)
(** * Further properties: [chunk_text]                                    *)
(* ===================================================================== *)

Module ChunkMore.
Import PreProcessor Notions ChunkSpec.

(** ** The overlap text *)

Lemma slice_from_suffix s i : exists before, s = before ++ slice_from s i.
Proof.
  unfold slice_from. eexists. symmetry. apply take_drop.
Qed.

(** X7.  With a positive [overlap], the overlap text of a chunk is its last
    [overlap] characters, or the whole chunk when it has no more. *)
Theorem overlap_text_suffix overlap full_chunk :
  0 < overlap ->
  (exists before, full_chunk = before ++ overlap_text overlap full_chunk)
  /\ Z.of_nat (length (overlap_text overlap full_chunk))
     = Z.min (Z.of_nat (length full_chunk)) overlap.
Proof.
  intros Hpos. unfold overlap_text.
  destruct (Z.gtb_spec (Z.of_nat (length full_chunk)) overlap) as [Hlong | Hshort].
  - split; [apply slice_from_suffix |].
    unfold slice_from.
    destruct (Z.ltb_spec (- overlap) 0) as [_ | Hge]; [| lia].
    rewrite length_drop. lia.
  - split; [exists []; reflexivity | lia].
Qed.

Lemma overlap_text_suffix_40 :
  (exists before,
     lit "The quick brown fox jumps over the lazy dog near the river bank."
     = before ++ overlap_text 40
         (lit "The quick brown fox jumps over the lazy dog near the river bank."))
  /\ Z.of_nat (length (overlap_text 40
       (lit "The quick brown fox jumps over the lazy dog near the river bank.")))
     = Z.min (Z.of_nat (length
         (lit "The quick brown fox jumps over the lazy dog near the river bank.")))
         40.
Proof.
  apply (overlap_text_suffix 40
    (lit "The quick brown fox jumps over the lazy dog near the river bank.")).
  lia.
Defined.

(** X8.  With [overlap] zero or negative, the slice [full_chunk[-overlap:]]
    does not count from the end: the overlap text is the chunk without its
    first [-overlap] characters, the whole chunk for [overlap = 0]. *)
Theorem overlap_text_not_positive overlap full_chunk :
  overlap <= 0 ->
  overlap_text overlap full_chunk = drop (Z.to_nat (- overlap)) full_chunk.
Proof.
  intros Hle. unfold overlap_text.
  destruct (Z.gtb_spec (Z.of_nat (length full_chunk)) overlap) as [Hlong | Hshort].
  - unfold slice_from.
    destruct (Z.ltb_spec (- overlap) 0) as [Hneg | _]; [lia |].
    destruct (Z.min_spec (- overlap) (Z.of_nat (length full_chunk)))
      as [[_ ->] | [Hbig ->]]; [reflexivity |].
    rewrite Nat2Z.id. rewrite !drop_ge by lia. reflexivity.
  - assert (overlap = 0 /\ length full_chunk = O) as [-> Hlen] by lia.
    reflexivity.
Qed.

Lemma overlap_text_zero_is_whole :
  overlap_text 0 (lit "Sentence one. Sentence two.")
  = drop (Z.to_nat (- 0)) (lit "Sentence one. Sentence two.").
Proof.
  apply (overlap_text_not_positive 0 (lit "Sentence one. Sentence two.")).
  lia.
Defined.

Section Chunking.

Context (enc_encode : str -> list N) (max_tokens overlap : Z).

Local Abbreviation tok := (tokens enc_encode).
Local Abbreviation pstep := (piece_step enc_encode max_tokens overlap).
Local Abbreviation pieces := (chunk_pieces enc_encode max_tokens overlap).
Local Abbreviation kept :=
  (filter (fun s => tokens enc_encode s <= max_tokens)).

(** The three cases of the loop body, by the tokens of the sentence. *)
Lemma piece_step_cases st s :
  (max_tokens < tok s /\ pstep st s = st)
  \/ (tok s <= max_tokens /\ p_tokens st + tok s <= max_tokens
      /\ pstep st s
         = {| p_chunks := p_chunks st;
              p_current := {| seed := seed (p_current st);
                              sents := sents (p_current st) ++ [s] |};
              p_tokens := p_tokens st + tok s |})
  \/ (tok s <= max_tokens /\ max_tokens < p_tokens st + tok s
      /\ pstep st s
         = {| p_chunks := p_chunks st ++ [p_current st];
              p_current :=
                {| seed := Some (overlap_text overlap
                                   (piece_text (p_current st)));
                   sents := [s] |};
              p_tokens := tok (overlap_text overlap
                                 (piece_text (p_current st))) + tok s |}).
Proof.
  destruct (Z.lt_ge_cases max_tokens (tok s)) as [Hlong | Hfits].
  - left. split; [exact Hlong | apply piece_step_skip, Hlong].
  - destruct (Z.lt_ge_cases max_tokens (p_tokens st + tok s)) as [Hfull | Hroom].
    + right. right. split; [exact Hfits |]. split; [exact Hfull |].
      apply piece_step_close; assumption.
    + right. left. split; [exact Hfits |]. split; [exact Hroom |].
      apply piece_step_append; assumption.
Qed.

(** *** No sentence is lost *)

Lemma piece_step_sents st s :
  flat_map sents (p_chunks (pstep st s) ++ [p_current (pstep st s)])
  = flat_map sents (p_chunks st ++ [p_current st]) ++ kept [s].
Proof.
  destruct (piece_step_cases st s)
    as [[Hlong ->] | [(Hfits & _ & ->) | (Hfits & _ & ->)]].
  - rewrite filter_cons_False by lia. rewrite filter_nil, app_nil_r.
    reflexivity.
  - rewrite filter_cons_True by exact Hfits. rewrite filter_nil.
    cbn [p_chunks p_current]. rewrite !flat_map_app. cbn.
    rewrite !app_nil_r, app_assoc. reflexivity.
  - rewrite filter_cons_True by exact Hfits. rewrite filter_nil.
    cbn [p_chunks p_current]. rewrite !flat_map_app. cbn.
    rewrite !app_nil_r. reflexivity.
Qed.

Lemma fold_piece_step_sents sentences : forall st,
  flat_map sents (p_chunks (fold_left pstep sentences st)
                    ++ [p_current (fold_left pstep sentences st)])
  = flat_map sents (p_chunks st ++ [p_current st]) ++ kept sentences.
Proof.
  induction sentences as [| s rest IH]; intros st.
  - rewrite filter_nil, app_nil_r. reflexivity.
  - cbn [fold_left]. rewrite IH, piece_step_sents, <- app_assoc.
    f_equal. change (s :: rest) with ([s] ++ rest).
    rewrite filter_app. reflexivity.
Qed.

Lemma piece_finish_sents st :
  flat_map sents (piece_finish st)
  = flat_map sents (p_chunks st ++ [p_current st]).
Proof.
  unfold piece_finish. destruct (p_current st) as [sd ss] eqn:E.
  destruct (piece_parts {| seed := sd; sents := ss |}) eqn:Hparts;
    [| reflexivity].
  unfold piece_parts in Hparts. cbn in Hparts.
  destruct sd; [discriminate |]. subst ss.
  rewrite flat_map_app. cbn. rewrite app_nil_r. reflexivity.
Qed.

(** *** No chunk without a sentence *)

Local Abbreviation has_sentences st :=
  (Forall (fun p => sents p <> []) (p_chunks st)
   /\ (sents (p_current st) = [] ->
       seed (p_current st) = None /\ p_tokens st = 0)).

Lemma piece_step_has_sentences st s :
  has_sentences st -> has_sentences (pstep st s).
Proof.
  intros [Hchunks Hcur].
  destruct (piece_step_cases st s)
    as [[Hlong ->] | [(Hfits & _ & ->) | (Hfits & Hfull & ->)]].
  - split; assumption.
  - cbn [p_chunks p_current p_tokens seed sents]. split; [exact Hchunks |].
    intros Hnil. destruct (sents (p_current st)); discriminate.
  - cbn [p_chunks p_current p_tokens seed sents]. split; [| discriminate].
    apply Forall_app. split; [exact Hchunks |]. apply Forall_singleton.
    intros Hnil. destruct (Hcur Hnil) as [_ Hzero]. lia.
Qed.

Lemma fold_piece_step_has_sentences sentences : forall st,
  has_sentences st -> has_sentences (fold_left pstep sentences st).
Proof.
  induction sentences as [| s rest IH]; intros st Hst; [exact Hst |].
  cbn [fold_left]. apply IH, piece_step_has_sentences, Hst.
Qed.

Lemma pieces_have_sentences sentences :
  Forall (fun p => sents p <> []) (pieces sentences).
Proof.
  unfold chunk_pieces.
  destruct (fold_piece_step_has_sentences sentences piece_init)
    as [Hchunks Hcur].
  { split; [constructor | intros _; split; reflexivity]. }
  unfold piece_finish.
  destruct (piece_parts _) eqn:Hparts; [exact Hchunks |].
  apply Forall_app. split; [exact Hchunks |]. apply Forall_singleton.
  intros Hnil. destruct (Hcur Hnil) as [Hseed _].
  unfold piece_parts in Hparts. rewrite Hseed, Hnil in Hparts. discriminate.
Qed.

(** *** The seeds *)

Lemma seeds_linked_last l : forall p p',
  seeds_linked overlap (l ++ [p]) -> seed p' = seed p ->
  seeds_linked overlap (l ++ [p']).
Proof.
  induction l as [| a l IH]; intros p p' Hl Hseed; [exact I |].
  destruct l as [| b l].
  - cbn in *. rewrite Hseed. exact Hl.
  - cbn [app seeds_linked] in *. destruct Hl as [Hb Hl].
    split; [exact Hb | eapply IH; eassumption].
Qed.

Lemma seeds_linked_snoc l : forall p q,
  seeds_linked overlap (l ++ [p]) ->
  seed q = Some (overlap_text overlap (piece_text p)) ->
  seeds_linked overlap ((l ++ [p]) ++ [q]).
Proof.
  induction l as [| a l IH]; intros p q Hl Hq.
  - cbn. auto.
  - destruct l as [| b l].
    + cbn in *. destruct Hl as [Hp _]. auto.
    + cbn [app seeds_linked] in *. destruct Hl as [Hb Hl].
      split; [exact Hb | apply IH; assumption].
Qed.

Lemma seeds_linked_init l : forall p,
  seeds_linked overlap (l ++ [p]) -> seeds_linked overlap l.
Proof.
  induction l as [| a l IH]; intros p Hl; [exact I |].
  destruct l as [| b l]; [exact I |].
  cbn [app seeds_linked] in *. destruct Hl as [Hb Hl].
  split; [exact Hb | eapply IH, Hl].
Qed.

Lemma seeds_linked_pair l : forall before p q after,
  seeds_linked overlap l -> l = before ++ p :: q :: after ->
  seed q = Some (overlap_text overlap (piece_text p)).
Proof.
  intros before. revert l.
  induction before as [| a before IH]; intros l p q after Hl ->.
  - cbn in Hl. apply Hl.
  - apply (IH (before ++ p :: q :: after) p q after); [| reflexivity].
    destruct before; cbn in Hl; apply Hl.
Qed.

Local Abbreviation seeded st :=
  (seeds_linked overlap (p_chunks st ++ [p_current st])
   /\ forall p, head (p_chunks st ++ [p_current st]) = Some p ->
                seed p = None).

Lemma piece_step_seeded st s : seeded st -> seeded (pstep st s).
Proof.
  intros [Hlinked Hhead].
  destruct (piece_step_cases st s)
    as [[Hlong ->] | [(Hfits & _ & ->) | (Hfits & Hfull & ->)]].
  - split; assumption.
  - cbn [p_chunks p_current]. split.
    + eapply seeds_linked_last; [exact Hlinked | reflexivity].
    + intros p Hp. destruct (p_chunks st) as [| a l]; cbn in *.
      * injection Hp as <-. cbn. apply Hhead. reflexivity.
      * apply Hhead, Hp.
  - cbn [p_chunks p_current]. split.
    + apply seeds_linked_snoc; [exact Hlinked | reflexivity].
    + intros p Hp. apply Hhead.
      destruct (p_chunks st) as [| a l]; cbn in *; exact Hp.
Qed.

Lemma fold_piece_step_seeded sentences : forall st,
  seeded st -> seeded (fold_left pstep sentences st).
Proof.
  induction sentences as [| s rest IH]; intros st Hst; [exact Hst |].
  cbn [fold_left]. apply IH, piece_step_seeded, Hst.
Qed.

Lemma pieces_seeded sentences :
  seeds_linked overlap (pieces sentences)
  /\ forall p, head (pieces sentences) = Some p -> seed p = None.
Proof.
  unfold chunk_pieces.
  destruct (fold_piece_step_seeded sentences piece_init) as [Hlinked Hhead].
  { split; [exact I |]. cbn. intros p [= <-]. reflexivity. }
  unfold piece_finish. destruct (piece_parts _); [| split; assumption].
  split; [eapply seeds_linked_init, Hlinked |].
  intros p Hp. apply Hhead.
  destruct (p_chunks _) as [| a l]; [discriminate | exact Hp].
Qed.

End Chunking.

Lemma dedup_nil_iff chunks : _deduplicate_chunks chunks = [] <-> chunks = [].
Proof.
  rewrite DedupSpec.dedup_unfold. split; [| intros ->; reflexivity].
  destruct chunks as [| c rest]; [reflexivity |]. simpl.
  rewrite decide_False by apply not_elem_of_empty. discriminate.
Qed.

Lemma filter_nil_iff {A} (P : A -> Prop) `{!forall x, Decision (P x)}
    (l : list A) :
  filter P l = [] <-> Forall (fun x => ~ P x) l.
Proof.
  induction l as [| x l IH]; [split; [constructor | reflexivity] |].
  rewrite filter_cons, Forall_cons. case_decide as Hx.
  - split; [discriminate | tauto].
  - rewrite IH. tauto.
Qed.

(** X9.  The chunks before deduplication are the texts of pieces that share out
    the sentences of at most [max_tokens] tokens: put end to end, the sentences
    of the pieces are those sentences, each once and in the order of the text;
    no piece is without a sentence, and the first piece has no overlap seed. *)
Theorem pieces_share_out_sentences enc_encode max_tokens overlap sentences :
  let pieces := chunk_pieces enc_encode max_tokens overlap sentences in
  chunk_sentences enc_encode max_tokens overlap sentences
  = map piece_text pieces
  /\ flat_map sents pieces
     = filter (fun s => tokens enc_encode s <= max_tokens) sentences
  /\ Forall (fun p => sents p <> []) pieces
  /\ (forall p, head pieces = Some p -> seed p = None).
Proof.
  cbn zeta. split; [apply chunk_sentences_pieces |].
  split; [| split].
  - unfold chunk_pieces.
    rewrite piece_finish_sents, fold_piece_step_sents. reflexivity.
  - apply pieces_have_sentences.
  - apply pieces_seeded.
Qed.

(** X10.  [chunk_text] returns no chunk exactly when every sentence of the text
    has more than [max_tokens] tokens (or the text has no sentence). *)
Theorem chunk_text_empty_iff sent_tokenize enc_encode max_tokens overlap text :
  chunk_text sent_tokenize enc_encode max_tokens overlap text = []
  <-> Forall (fun s => max_tokens < tokens enc_encode s) (sent_tokenize text).
Proof.
  unfold chunk_text. rewrite dedup_nil_iff, chunk_sentences_pieces.
  pose proof (pieces_have_sentences enc_encode max_tokens overlap
                (sent_tokenize text)) as Hhave.
  assert (flat_map sents (chunk_pieces enc_encode max_tokens overlap
                            (sent_tokenize text))
          = filter (fun s => tokens enc_encode s <= max_tokens)
                   (sent_tokenize text)) as Hsents.
  { unfold chunk_pieces.
    rewrite piece_finish_sents, fold_piece_step_sents. reflexivity. }
  assert (Forall (fun s => max_tokens < tokens enc_encode s)
                 (sent_tokenize text)
          <-> filter (fun s => tokens enc_encode s <= max_tokens)
                     (sent_tokenize text) = []) as ->.
  { rewrite filter_nil_iff. apply Forall_iff. intros s. lia. }
  rewrite <- Hsents.
  destruct (chunk_pieces enc_encode max_tokens overlap (sent_tokenize text))
    as [| p ps]; [split; reflexivity |].
  apply Forall_cons in Hhave as [Hp _].
  split; [discriminate |]. cbn [flat_map].
  destruct (sents p); [congruence | discriminate].
Qed.

(** X11.  Of two chunks in a row (before deduplication), the second starts with
    the overlap text of the first, then a space. *)
Theorem consecutive_chunks_overlap enc_encode max_tokens overlap sentences
    before c1 c2 after :
  chunk_sentences enc_encode max_tokens overlap sentences
  = before ++ c1 :: c2 :: after ->
  exists rest, c2 = overlap_text overlap c1 ++ [SP] ++ rest.
Proof.
  rewrite chunk_sentences_pieces. intros Heq.
  apply List.map_eq_app in Heq as (bp & rp & Hpieces & _ & Heq).
  destruct rp as [| p [| q ap]]; try discriminate Heq.
  cbn [map] in Heq. injection Heq as <- <- _.
  pose proof (pieces_seeded enc_encode max_tokens overlap sentences)
    as [Hlinked _].
  pose proof (seeds_linked_pair overlap _ bp p q ap Hlinked Hpieces) as Hseed.
  pose proof (pieces_have_sentences enc_encode max_tokens overlap sentences)
    as Hhave.
  rewrite Hpieces in Hhave.
  apply Forall_app in Hhave as [_ Hhave].
  apply Forall_cons in Hhave as [_ Hhave].
  apply Forall_cons in Hhave as [Hq _].
  unfold piece_text at 1. unfold piece_parts. rewrite Hseed.
  destruct (sents q) as [| s ss]; [congruence |].
  eexists. reflexivity.
Qed.

Lemma consecutive_chunks_overlap_three_sentences :
  exists rest,
    repeat "b"%char 40 ++ [SP] ++ repeat "c"%char 120
    = overlap_text 40 (repeat "a"%char 100 ++ [SP] ++ repeat "b"%char 100)
        ++ [SP] ++ rest.
Proof.
  apply (consecutive_chunks_overlap Toy.enc_encode 256 40
           (Toy.sent_tokenize Toy.three_sentences) []
           (repeat "a"%char 100 ++ [SP] ++ repeat "b"%char 100)
           (repeat "b"%char 40 ++ [SP] ++ repeat "c"%char 120) []).
  vm_compute. reflexivity.
Defined.

End ChunkMore.

(* ===================================================================== *)
(** * Further properties: [embed_and_upsert]                              *)
(* ===================================================================== *)

Module UpsertSpec.
Import PreProcessor Notions.

(** ** [str(i)] is the decimal numeral of [i] *)






Section Upsert.

Context {vector : Type} (model_encode : list str -> list vector).

Local Abbreviation upsert := (embed_and_upsert model_encode).



(** X14.  The prefix goes by the letters of the model name: the texts handed to
    the encoder carry "passage: " when "e5" or "E5" occurs somewhere in the
    name, and are the chunks themselves when it does not. *)
Theorem prefix_when_e5_in_name chunks model_name source_filename
    (w : world vector) :
  chunks <> [] ->
  let e5_in_name :=
    exists before c after,
      model_name = before ++ c :: "5"%char :: after
      /\ (c = "e"%char \/ c = "E"%char) in
  let calls :=
    encoder_calls (snd (upsert chunks model_name source_filename w)) in
  (e5_in_name ->
   calls = encoder_calls w ++ [map (fun c => lit "passage: " ++ c) chunks])
  /\ (~ e5_in_name -> calls = encoder_calls w ++ [chunks]).
Proof.
  intros Hne. cbn zeta. destruct chunks as [| c chunks]; [congruence |].
  unfold embed_and_upsert. cbn [snd encoder_calls].
  split; intros H.
  - apply IngestionSpec.contains_e5_lower in H. rewrite H. reflexivity.
  - destruct (contains (lit "e5") (lower model_name)) eqn:E.
    + exfalso. apply H, IngestionSpec.contains_e5_lower, E.
    + f_equal. f_equal. cbn [app]. f_equal. apply map_id.
Qed.

End Upsert.

Lemma prefix_when_e5_in_name_multilingual :
  encoder_calls (snd (embed_and_upsert Toy.model_encode
     [lit "first chunk"] (lit "intfloat/multilingual-E5-base")
     (lit "docs/a.pdf") Toy.empty_world))
  = encoder_calls Toy.empty_world ++ [[lit "passage: first chunk"]].
Proof.
  refine (proj1 (prefix_when_e5_in_name Toy.model_encode [lit "first chunk"]
                   (lit "intfloat/multilingual-E5-base") (lit "docs/a.pdf")
                   Toy.empty_world _) _).
  - discriminate.
  - exists (lit "intfloat/multilingual-"), "E"%char, (lit "-base").
    split; [reflexivity | right; reflexivity].
Defined.


End UpsertSpec.

(* ===================================================================== *)
(** * Further properties: [run_ingestion]                                 *)
(* ===================================================================== *)

Module RunSpec.
Import PreProcessor Notions.

Section Run.

Context {vector : Type} (model_encode : list str -> list vector)
        (html_get_text : str -> str) (sent_tokenize : str -> list str)
        (tiktoken_get_encoding : str -> str -> list N) (os_sep : ascii)
        (data_dir collection_name embedding_model_name tokenizer_model : str)
        (chunk_size chunk_overlap : Z).

Local Abbreviation ingest :=
  (ingest_file model_encode html_get_text sent_tokenize tiktoken_get_encoding
               os_sep data_dir embedding_model_name tokenizer_model
               chunk_size chunk_overlap).
Local Abbreviation run :=
  (run_ingestion model_encode html_get_text sent_tokenize
                 tiktoken_get_encoding os_sep data_dir collection_name
                 embedding_model_name tokenizer_model chunk_size
                 chunk_overlap).
Local Abbreviation source_name := (source_name os_sep).

Lemma supported_false f :
  supported f = false ->
  file_ext f <> lit ".html" /\ file_ext f <> lit ".pdf".
Proof.
  unfold supported. intros H. apply orb_false_iff in H as [H1 H2].
  apply bool_decide_eq_false in H1, H2. split; assumption.
Qed.

Lemma ingest_unsupported f (w : world vector) :
  supported f = false ->
  ingest f w = (Returned tt, log [LogProcessing (source_name f)] w).
Proof.
  intros [Hhtml Hpdf]%supported_false. unfold ingest_file.
  rewrite !decide_False by assumption. reflexivity.
Qed.

Lemma stored_log evs (w : world vector) : stored (log evs w) = stored w.
Proof. reflexivity. Qed.

(** What a file does to the store and whether it raises does not depend
    on what was printed before. *)
Lemma ingest_stored f (w1 w2 : world vector) :
  stored w1 = stored w2 ->
  fst (ingest f w1) = fst (ingest f w2)
  /\ stored (snd (ingest f w1)) = stored (snd (ingest f w2)).
Proof.
  intros Hst. destruct w1 as [e1 c1 p1], w2 as [e2 c2 p2].
  injection Hst as -> ->. unfold ingest_file.
  repeat case_decide;
    unfold extract_text_from_html, extract_text_from_pdf, eff_bind, eff_try,
      eff_lift, eff_ret, print;
    cbn [encoder_calls collection printed];
    destruct (f_exists f); cbn [negb];
    try destruct (f_read f); try destruct (f_pdf_pages f);
    cbn [fst snd];
    repeat match goal with
           | |- context [embed_and_upsert _ ?chunks _ _] =>
               destruct chunks; cbn
           end;
    auto.
Qed.


Lemma for_each_supported files : forall (w1 w2 : world vector),
  stored w1 = stored w2 ->
  fst (for_each vector files ingest w1)
  = fst (for_each vector (List.filter supported files) ingest w2)
  /\ stored (snd (for_each vector files ingest w1))
     = stored (snd (for_each vector (List.filter supported files) ingest w2)).
Proof.
  induction files as [| f rest IH]; intros w1 w2 Hst; [split; auto |].
  cbn [List.filter for_each]. destruct (supported f) eqn:Hsup.
  - cbn [for_each]. unfold eff_bind.
    destruct (ingest_stored f w1 w2 Hst) as [Hout Hst'].
    destruct (ingest f w1) as [[[] | e1] w1'],
             (ingest f w2) as [[[] | e2] w2']; cbn [fst snd] in *;
      try discriminate; [apply IH, Hst' | split; assumption].
  - unfold eff_bind. rewrite ingest_unsupported by exact Hsup.
    apply IH. rewrite stored_log. exact Hst.
Qed.


Lemma run_unfold files (w : world vector) :
  run true files w
  = let (o, w') := for_each vector files ingest
                     (log [LogFound (length files)] w) in
    match o with
    | Returned _ =>
        (Returned tt, log [LogComplete collection_name (count w')] w')
    | Raised e => (Raised e, w')
    end.
Proof. reflexivity. Qed.

End Run.

(** X15.  Files with another extension than [.html] and [.pdf] (in any case of
    letters) are left alone: a run over all files stores the same records,
    hands the same texts to the encoder and ends the same way as a run over the
    [.html] and [.pdf] files only. *)
Theorem run_ingestion_skips_unsupported (vector : Type)
    (model_encode : list str -> list vector) html_get_text sent_tokenize
    tiktoken_get_encoding os_sep data_dir collection_name
    embedding_model_name tokenizer_model chunk_size chunk_overlap
    data_dir_exists all_files (w : world vector) :
  let run := run_ingestion model_encode html_get_text sent_tokenize
               tiktoken_get_encoding os_sep data_dir collection_name
               embedding_model_name tokenizer_model chunk_size
               chunk_overlap data_dir_exists in
  fst (run all_files w) = fst (run (List.filter supported all_files) w)
  /\ stored (snd (run all_files w))
     = stored (snd (run (List.filter supported all_files) w)).
Proof.
  cbn zeta. destruct data_dir_exists; [| split; reflexivity].
  rewrite !run_unfold.
  destruct (for_each_supported model_encode html_get_text sent_tokenize
              tiktoken_get_encoding os_sep data_dir embedding_model_name
              tokenizer_model chunk_size chunk_overlap all_files
              (log [LogFound (length all_files)] w)
              (log [LogFound (length (List.filter supported all_files))] w)
              eq_refl) as [Hout Hst].
  destruct (for_each vector all_files _ _) as [[[] | e1] w1'],
    (for_each vector (List.filter supported all_files) _ _)
      as [[[] | e2] w2'];
    cbn [fst snd] in *; try discriminate; split; auto.
Qed.





Example missing_pdf_is_reported :
  ingest_file Toy.model_encode Toy.html_get_text Toy.sent_tokenize
    Toy.get_encoding "/"%char (lit "data") (lit "all-MiniLM-L6-v2")
    (lit "cl100k_base") 256 40 missing_pdf Toy.empty_world
  = (Returned tt,
     {| encoder_calls := []; collection := [];
        printed := [LogProcessing (lit "gone.pdf");
                    LogPdfNotFound (lit "data/gone.pdf")] |}).
Proof. vm_compute. reflexivity. Qed.

Example missing_html_is_silent :
  ingest_file Toy.model_encode Toy.html_get_text Toy.sent_tokenize
    Toy.get_encoding "/"%char (lit "data") (lit "all-MiniLM-L6-v2")
    (lit "cl100k_base") 256 40 missing_html Toy.empty_world
  = (Returned tt,
     {| encoder_calls := []; collection := [];
        printed := [LogProcessing (lit "gone.html")] |}).
Proof. vm_compute. reflexivity. Qed.

Example notes_txt_is_skipped :
  ingest_file Toy.model_encode Toy.html_get_text Toy.sent_tokenize
    Toy.get_encoding "/"%char (lit "data") (lit "all-MiniLM-L6-v2")
    (lit "cl100k_base") 256 40 notes_txt Toy.empty_world
  = (Returned tt,
     {| encoder_calls := []; collection := [];
        printed := [LogProcessing (lit "notes.txt")] |}).
Proof. vm_compute. reflexivity. Qed.

End RunSpec.

(* ===================================================================== *)
(** * Further properties: the LLM client and the generator                *)
(* ===================================================================== *)

Module LLMMore.
Import Schema LLMClient StudentGenerator Notions.

Lemma lower_chr_idem c : lower_chr (lower_chr c) = lower_chr c.
Proof. destruct c as [[] [] [] [] [] [] [] []]; vm_compute; reflexivity. Qed.

Lemma lower_idem s : lower (lower s) = lower s.
Proof.
  unfold lower. induction s as [| c s IH]; [reflexivity |].
  cbn [map]. rewrite lower_chr_idem, IH. reflexivity.
Qed.

(** X18.  The provider name counts without the case of its letters:
    constructing a client with a name or with the name in lower case does the
    same and gives the same client. *)
Theorem provider_case_insensitive env provider model_name t :
  LLMClient.__init__ env provider model_name t
  = LLMClient.__init__ env (lower provider) model_name t.
Proof. unfold LLMClient.__init__. cbn zeta. rewrite lower_idem. reflexivity. Qed.

(** X19.  A known provider whose SDK could not be imported makes the
    construction raise [ImportError] with the "pip install" hint, before any
    key is looked up and any SDK client is created. *)
Theorem missing_dependency_rejected env provider model_name t hint :
  (lower provider = lit "gemini" /\ HAS_GEMINI env = false
   /\ hint = lit "Run `pip install google-genai`")
  \/ (lower provider = lit "openai" /\ HAS_OPENAI env = false
      /\ hint = lit "Run `pip install openai`")
  \/ (lower provider = lit "anthropic" /\ HAS_ANTHROPIC env = false
      /\ hint = lit "Run `pip install anthropic`")
  \/ (lower provider = lit "groq" /\ HAS_GROQ env = false
      /\ hint = lit "Run `pip install groq`") ->
  LLMClient.__init__ env provider model_name t
  = (Raised (ImportError hint), t ++ [EvLoadDotenv]).
Proof.
  unfold LLMClient.__init__, _init_client, connect, eff_bind, eff_raise, emit.
  intros [(-> & -> & ->) | [(-> & -> & ->) | [(-> & -> & ->) | (-> & -> & ->)]]];
    reflexivity.
Qed.

Lemma missing_dependency_rejected_groq :
  LLMClient.__init__ env_without_groq (lit "Groq") (lit "llama-3.3-70b-versatile") []
  = (Raised (ImportError (lit "Run `pip install groq`")), [EvLoadDotenv]).
Proof.
  apply (missing_dependency_rejected env_without_groq (lit "Groq")
           (lit "llama-3.3-70b-versatile") []).
  right. right. right. vm_compute. repeat split; reflexivity.
Defined.

(** X20.  A client that was constructed has one of the four provider names, in
    lower case, the model name it was given, and an SDK client. *)
Theorem constructed_client_is_known env provider model_name t c t' :
  LLMClient.__init__ env provider model_name t = (Returned c, t') ->
  LLMClient.provider c = lower provider
  /\ LLMClient.provider c ∈ known_providers
  /\ LLMClient.model_name c = model_name
  /\ exists b, handle c = Some b.
Proof.
  unfold LLMClient.__init__, _init_client, connect, known_providers, eff_bind,
    eff_raise, eff_lift, eff_ret, emit.
  repeat case_decide;
    repeat match goal with
           | |- context [if negb ?b then _ else _] => destruct b; cbn [negb]
           | |- context [match get_key ?e ?a ?b with _ => _ end] =>
               destruct (get_key e a b)
           | |- context [match new_client ?e ?a ?b with _ => _ end] =>
               destruct (new_client e a b)
           end;
    intros [= <- <-]; cbn [LLMClient.provider LLMClient.model_name handle];
    (split; [reflexivity |]);
    (split; [| split; [reflexivity | eauto]]);
    match goal with H : lower provider = _ |- _ => rewrite H end;
    apply list_elem_of_In; simpl; auto.
Qed.

Lemma constructed_client_is_known_gemini :
  lit "gemini" = lower (lit "Gemini")
  /\ lit "gemini" ∈ known_providers
  /\ lit "gemini-2.0-flash" = lit "gemini-2.0-flash"
  /\ exists b, Some Gemini = Some b.
Proof.
  apply (constructed_client_is_known Toy.env (lit "Gemini")
           (lit "gemini-2.0-flash") []
           {| provider := lit "gemini"; model_name := lit "gemini-2.0-flash";
              handle := Some Gemini |}
           [EvLoadDotenv; EvGetKey (lit "GEMINI_API_KEY") (lit "gemini");
            EvNewClient Gemini (Some (lit "key"));
            EvPrintConnected (lit "gemini") (lit "gemini-2.0-flash")]).
  vm_compute. reflexivity.
Defined.

(** X21.  When the request of the provider raises, [generate_text] returns the
    text "Error: " followed by the message of the exception. *)
Theorem generate_text_reports_failure env self prompt system_instruction t e :
  (provider self = lit "gemini"
   /\ gemini_generate_content env (LLMClient.model_name self) prompt None
      = Raised e)
  \/ (provider self = lit "openai"
      /\ openai_chat_create env (LLMClient.model_name self)
           (with_system system_instruction [user_message prompt])
         = Raised e)
  \/ (provider self = lit "anthropic"
      /\ anthropic_messages_create env (LLMClient.model_name self)
           [user_message prompt]
         = Raised e)
  \/ (provider self = lit "groq"
      /\ groq_chat_create env (LLMClient.model_name self)
           (with_system system_instruction [user_message prompt]) false
         = Raised e) ->
  fst (generate_text env self prompt system_instruction t)
  = Returned (Some (lit "Error: " ++ exn_msg e)).
Proof.
  unfold generate_text, eff_try, eff_bind, eff_lift, eff_ret, emit.
  intros [[Hp H] | [[Hp H] | [[Hp H] | [Hp H]]]]; rewrite Hp, H;
    reflexivity.
Qed.

Lemma generate_text_reports_failure_openai :
  fst (generate_text Toy.env (Toy.client_of (lit "openai")) (lit "question")
         (Some system_instr) [])
  = Returned (Some (lit "Error: " ++ exn_msg (OtherError (lit "401")))).
Proof.
  apply (generate_text_reports_failure Toy.env
           (Toy.client_of (lit "openai")) (lit "question")
           (Some system_instr) [] (OtherError (lit "401"))).
  right. left. split; reflexivity.
Defined.

(** X22.  The system instruction does not reach Gemini and Anthropic:
    [generate_text] does for them what it does without one. *)
Theorem system_instruction_ignored env self prompt system_instruction t :
  provider self = lit "gemini" \/ provider self = lit "anthropic" ->
  generate_text env self prompt system_instruction t
  = generate_text env self prompt None t.
Proof.
  unfold generate_text. intros [Hp | Hp]; rewrite Hp; reflexivity.
Qed.

Lemma system_instruction_ignored_anthropic :
  generate_text Toy.env (Toy.client_of (lit "anthropic")) (lit "question")
    (Some system_instr) []
  = generate_text Toy.env (Toy.client_of (lit "anthropic")) (lit "question")
      None [].
Proof.
  apply (system_instruction_ignored Toy.env
           (Toy.client_of (lit "anthropic")) (lit "question")
           (Some system_instr) []).
  right. reflexivity.
Defined.

(** X23.  For Groq the requested schema plays no part in the request and in the
    parsing of the answer, which is validated as a [Response]: the [try] block
    does the same for every [schema_model]. *)
Theorem groq_ignores_schema env self prompt schema schema' t :
  provider self = lit "groq" ->
  structured_attempt env self prompt schema t
  = structured_attempt env self prompt schema' t.
Proof. unfold structured_attempt. intros ->. reflexivity. Qed.

Lemma groq_ignores_schema_toy :
  structured_attempt Toy.env (Toy.client_of (lit "groq")) (lit "question")
    DatasetSummaryModel []
  = structured_attempt Toy.env (Toy.client_of (lit "groq")) (lit "question")
      ResponseModel [].
Proof.
  apply (groq_ignores_schema Toy.env (Toy.client_of (lit "groq"))
           (lit "question") DatasetSummaryModel ResponseModel []).
  reflexivity.
Defined.

(** ** One round trip *)

Lemma requests_app t evs : requests (t ++ evs) = (requests t + requests evs)%nat.
Proof. unfold requests. rewrite List.filter_app, length_app. reflexivity. Qed.

Ltac trace_tail :=
  repeat match goal with
         | |- context [match ?o with Returned _ => _ | Raised _ => _ end] =>
             destruct o
         end;
  cbn [fst snd]; rewrite <- ?app_assoc; cbn [app];
  eexists; (split; [first [reflexivity | symmetry; apply app_nil_r] |]);
  cbn; lia.

Lemma generate_text_trace env self prompt system_instruction t :
  exists evs,
    snd (generate_text env self prompt system_instruction t) = t ++ evs
    /\ (requests evs <= 1)%nat.
Proof.
  unfold generate_text, eff_try, eff_bind, eff_lift, eff_ret, emit.
  repeat case_decide; trace_tail.
Qed.

Lemma generate_structured_trace env self prompt schema t :
  exists evs,
    snd (generate_structured env self prompt schema t) = t ++ evs
    /\ (requests evs <= 1)%nat.
Proof.
  unfold generate_structured, structured_attempt, eff_try, eff_bind,
    eff_lift, eff_ret, eff_raise, emit.
  repeat case_decide; trace_tail.
Qed.

Lemma generate_structured_returns env self prompt schema t :
  exists v t', generate_structured env self prompt schema t = (Returned v, t').
Proof.
  unfold generate_structured, eff_try.
  destruct (structured_attempt env self prompt schema t) as [[v | e] t'];
    eauto.
Qed.

(** X24.  [generate] always returns, with or without a schema, and sends at
    most one request to the provider: no retry. *)
Theorem generate_one_round_trip env self query context schema t :
  exists v evs,
    generate env self query context schema t = (Returned v, t ++ evs)
    /\ (requests evs <= 1)%nat.
Proof.
  unfold generate. destruct schema as [schema |].
  - destruct (generate_structured_returns env self
                (build_prompt query context) schema t) as (v & t' & E).
    destruct (generate_structured_trace env self
                (build_prompt query context) schema t) as (evs & Ht & Hr).
    rewrite E in Ht. cbn [snd] in Ht. subst t'. eauto.
  - destruct (LLMClientSpec.generate_text_returns env self
                (build_prompt query context) (Some system_instr) t)
      as (r & t' & E).
    destruct (generate_text_trace env self (build_prompt query context)
                (Some system_instr) t) as (evs & Ht & Hr).
    rewrite E in Ht. cbn [snd] in Ht. subst t'.
    unfold eff_bind. rewrite E. destruct r; eauto.
Qed.

End LLMMore.

(* ===================================================================== *)
(** * Further properties: [src/app.py]                                    *)
(* ===================================================================== *)

Module AppSpec.
Import Schema LLMClient StudentGenerator Notions App.

Section Config.

Context (env : environment) (subscript_error : yaml -> yaml -> str)
        (attribute_error : yaml -> str) (format_value : yaml -> str).

Local Abbreviation getitem := (getitem subscript_error).
Local Abbreviation lookups := (lookups subscript_error).
Local Abbreviation load_system :=
  (load_system env subscript_error attribute_error format_value).

Lemma load_system_lookups_fail cfg e t :
  lookups cfg = Raised e -> load_system (Returned cfg) t = (Raised e, t).
Proof.
  intros H. unfold App.load_system, eff_bind, eff_lift. rewrite H.
  reflexivity.
Qed.

(** X25.  An active name that is not in its section makes [load_system] raise
    the error of the failed subscript before anything else is done: the dotenv
    file is not loaded and no client is made.  The three active names are
    looked up in the order embedding, student, database. *)
Theorem missing_active_profile cfg e t :
  (exists embeddings retrieval name,
     getitem cfg (key "embeddings") = Returned embeddings
     /\ getitem cfg (key "retrieval") = Returned retrieval
     /\ getitem retrieval (key "active_embedding") = Returned name
     /\ getitem embeddings name = Raised e)
  \/ (exists embeddings retrieval name active_emb llm generation student,
        getitem cfg (key "embeddings") = Returned embeddings
        /\ getitem cfg (key "retrieval") = Returned retrieval
        /\ getitem retrieval (key "active_embedding") = Returned name
        /\ getitem embeddings name = Returned active_emb
        /\ getitem cfg (key "llm") = Returned llm
        /\ getitem cfg (key "generation") = Returned generation
        /\ getitem generation (key "active_student") = Returned student
        /\ getitem llm student = Raised e) ->
  load_system (Returned cfg) t = (Raised e, t).
Proof.
  intros H. apply load_system_lookups_fail. unfold App.lookups, obind.
  destruct H as [(em & r & n & H1 & H2 & H3 & H4)
                | (em & r & n & ae & llm & g & st & H1 & H2 & H3 & H4 & H5
                   & H6 & H7 & H8)].
  - rewrite H1, H2, H3, H4. reflexivity.
  - rewrite H1, H2, H3, H4, H5, H6, H7, H8. reflexivity.
Qed.

(** X26.  With the provider and the model of the active student given as
    strings, [load_system] constructs the LLM client for them and returns it
    with the settings; what the construction raises (unknown provider, missing
    SDK) leaves [load_system]. *)
Theorem load_system_constructs_client cfg settings p m t :
  lookups cfg = Returned (settings, YScalar (SStr p), YScalar (SStr m)) ->
  load_system (Returned cfg) t
  = match LLMClient.__init__ env p m t with
    | (Returned c, t') => (Returned (settings, agent_of c), t')
    | (Raised e, t') => (Raised e, t')
    end.
Proof.
  intros H.
  unfold App.load_system, student_generator_init, LLMClient.__init__,
    eff_bind, eff_lift, eff_ret, emit.
  rewrite H. cbn zeta.
  destruct (_init_client env (lower p) (t ++ [EvLoadDotenv]))
    as [[b | e] t']; reflexivity.
Qed.

(** X27.  A configuration whose active student names an unknown provider makes
    [load_system] raise the [ValueError] of the client. *)
Theorem load_system_unknown_provider cfg settings p m t :
  lookups cfg = Returned (settings, YScalar (SStr p), m) ->
  lower p ∉ known_providers ->
  load_system (Returned cfg) t
  = (Raised (ValueError (lit "Unknown provider: " ++ lower p)),
     t ++ [EvLoadDotenv]).
Proof.
  intros H Hnot.
  unfold App.load_system, student_generator_init, eff_bind, eff_lift,
    eff_ret, emit.
  rewrite H. cbn zeta.
  rewrite LLMClientSpec.init_client_unknown by exact Hnot. reflexivity.
Qed.

End Config.

Lemma missing_active_profile_bge :
  load_system Toy.env plain_error plain_attribute_error plain_format
    (Returned (set_item "retrieval" "active_embedding" (sstr "bge")
                 example_config)) []
  = (Raised (OtherError (lit "'bge'")), []).
Proof.
  apply (missing_active_profile Toy.env plain_error plain_attribute_error
           plain_format
           (set_item "retrieval" "active_embedding" (sstr "bge")
              example_config)
           (OtherError (lit "'bge'")) []).
  left. eexists _, _, _. vm_compute. repeat split; reflexivity.
Defined.

Lemma load_system_constructs_client_example :
  load_system Toy.env plain_error plain_attribute_error plain_format
    (Returned example_config) []
  = (Returned
       ({| DB_PATH := sstr "./chroma";
           COLLECTION_NAME := sstr "datasets";
           EMBEDDING_MODEL := sstr "intfloat/e5-base-v2";
           NUM_DOCS := YScalar (SInt 5);
           CHUNKS_PER_DOC := YScalar (SInt 3) |},
        {| agent_provider := lit "gemini";
           agent_model := sstr "gemini-2.0-flash";
           agent_handle := Some Gemini |}),
     [EvLoadDotenv; EvGetKey (lit "GEMINI_API_KEY") (lit "gemini");
      EvNewClient Gemini (Some (lit "key"));
      EvPrintConnected (lit "gemini") (lit "gemini-2.0-flash")]).
Proof.
  apply (load_system_constructs_client Toy.env plain_error
           plain_attribute_error plain_format example_config
           {| DB_PATH := sstr "./chroma";
              COLLECTION_NAME := sstr "datasets";
              EMBEDDING_MODEL := sstr "intfloat/e5-base-v2";
              NUM_DOCS := YScalar (SInt 5);
              CHUNKS_PER_DOC := YScalar (SInt 3) |}
           (lit "Gemini") (lit "gemini-2.0-flash") []).
  vm_compute. reflexivity.
Defined.

Lemma load_system_unknown_provider_mistral :
  load_system Toy.env plain_error plain_attribute_error plain_format
    (Returned (set_item "generation" "active_student" (sstr "mistral_large")
                 example_config)) []
  = (Raised (ValueError (lit "Unknown provider: mistral")), [EvLoadDotenv]).
Proof.
  apply (load_system_unknown_provider Toy.env plain_error
           plain_attribute_error plain_format
           (set_item "generation" "active_student" (sstr "mistral_large")
              example_config)
           {| DB_PATH := sstr "./chroma";
              COLLECTION_NAME := sstr "datasets";
              EMBEDDING_MODEL := sstr "intfloat/e5-base-v2";
              NUM_DOCS := YScalar (SInt 5);
              CHUNKS_PER_DOC := YScalar (SInt 3) |}
           (lit "mistral") (sstr "mistral-large") []).
  - vm_compute. reflexivity.
  - apply (proj1 (bool_decide_eq_false
                    (lower (lit "mistral") ∈ known_providers))).
    vm_compute. reflexivity.
Defined.

Section Interaction.

Context (env : environment) (retrieved ranked : Type)
        (retrieve_data : str -> yaml -> yaml -> yaml -> yaml -> yaml
                         -> outcome retrieved)
        (rank_datasets : retrieved -> outcome ranked)
        (str_of_ranked : ranked -> str)
        (render_answer_section render_supporting_evidence
           : pyobj -> outcome unit).

Local Abbreviation interaction :=
  (interaction env retrieved ranked retrieve_data rank_datasets
               str_of_ranked render_answer_section
               render_supporting_evidence).

(** X28.  An interaction never raises, and without a click on the button or
    with an empty query it does nothing: no retrieval, no request, nothing put
    on the page. *)
Theorem interaction_always_returns sys_cfg student query_text search_btn s :
  fst (interaction sys_cfg student query_text search_btn s) = Returned tt
  /\ (search_btn = false \/ query_text = [] ->
      snd (interaction sys_cfg student query_text search_btn s) = s).
Proof.
  unfold App.interaction. split.
  - destruct (search_btn && _); [| reflexivity].
    unfold eff_try.
    destruct (search_and_answer _ _ _ _ _ _ _ _ _ _ _ _)
      as [[[] | e] s']; reflexivity.
  - intros [-> | ->]; [reflexivity |].
    rewrite andb_false_r. reflexivity.
Qed.

(** X29.  When retrieval or ranking raises, no request goes to the LLM and the
    page shows "An error occurred: " followed by the message. *)
Theorem retrieval_failure_is_shown sys_cfg student query_text s e :
  query_text <> [] ->
  retrieve_data query_text (DB_PATH sys_cfg) (COLLECTION_NAME sys_cfg)
    (EMBEDDING_MODEL sys_cfg) (NUM_DOCS sys_cfg) (CHUNKS_PER_DOC sys_cfg)
  = Raised e
  \/ (exists r,
        retrieve_data query_text (DB_PATH sys_cfg) (COLLECTION_NAME sys_cfg)
          (EMBEDDING_MODEL sys_cfg) (NUM_DOCS sys_cfg) (CHUNKS_PER_DOC sys_cfg)
        = Returned r
        /\ rank_datasets r = Raised e) ->
  interaction sys_cfg student query_text true s
  = (Returned tt,
     {| llm_trace := llm_trace s;
        page := page s ++ [ShowError (lit "An error occurred: "
                                        ++ exn_msg e)] |}).
Proof.
  intros Hq H. unfold App.interaction.
  rewrite bool_decide_eq_false_2 by exact Hq. cbn [andb negb].
  unfold eff_try, search_and_answer, eff_bind, eff_lift.
  destruct H as [-> | (r & -> & ->)]; reflexivity.
Qed.

(** X30.  When retrieval and ranking return, the two panels are asked to render
    what [generate] returned for the [Response] schema, whatever happened at
    the provider; when they return too, that is all the page gets: a failure of
    the LLM gives an answer with empty fields, not an error message. *)
Theorem answer_is_rendered sys_cfg student query_text s r d v t' :
  query_text <> [] ->
  retrieve_data query_text (DB_PATH sys_cfg) (COLLECTION_NAME sys_cfg)
    (EMBEDDING_MODEL sys_cfg) (NUM_DOCS sys_cfg) (CHUNKS_PER_DOC sys_cfg)
  = Returned r ->
  rank_datasets r = Returned d ->
  generate env student query_text (str_of_ranked d) (Some ResponseModel)
    (llm_trace s) = (Returned v, t') ->
  render_answer_section v = Returned tt ->
  render_supporting_evidence v = Returned tt ->
  interaction sys_cfg student query_text true s
  = (Returned tt,
     {| llm_trace := t';
        page := page s ++ [RenderAnswer v; RenderEvidence v] |}).
Proof.
  intros Hq Hr Hd Hg Ha He. unfold App.interaction.
  rewrite bool_decide_eq_false_2 by exact Hq. cbn [andb negb].
  unfold eff_try, search_and_answer, eff_bind, eff_lift, with_llm, ask_page.
  rewrite Hr, Hd, Hg. cbn [llm_trace page]. rewrite Ha, He.
  rewrite <- app_assoc. reflexivity.
Qed.

End Interaction.

Lemma retrieval_failure_is_shown_toy :
  interaction Toy.env unit unit
    (fun _ _ _ _ _ _ => Raised (OtherError (lit "Collection datasets does not exist.")))
    (fun r => Returned r) (fun _ => lit "[]")
    (fun _ => Returned tt) (fun _ => Returned tt)
    {| DB_PATH := sstr "./chroma"; COLLECTION_NAME := sstr "datasets";
       EMBEDDING_MODEL := sstr "intfloat/e5-base-v2";
       NUM_DOCS := YScalar (SInt 5); CHUNKS_PER_DOC := YScalar (SInt 3) |}
    (Toy.client_of (lit "openai")) (lit "heat pumps") true fresh
  = (Returned tt,
     {| llm_trace := llm_trace fresh;
        page := page fresh
                ++ [ShowError (lit "An error occurred: "
                      ++ exn_msg (OtherError
                           (lit "Collection datasets does not exist.")))] |}).
Proof.
  apply (retrieval_failure_is_shown Toy.env unit unit
           (fun _ _ _ _ _ _ =>
              Raised (OtherError (lit "Collection datasets does not exist.")))
           (fun r => Returned r) (fun _ => lit "[]")
           (fun _ => Returned tt) (fun _ => Returned tt)).
  - discriminate.
  - left. reflexivity.
Defined.

Lemma answer_is_rendered_llm_down :
  interaction Toy.env unit unit
    (fun _ _ _ _ _ _ => Returned tt) (fun r => Returned r)
    (fun _ => lit "[]") (fun _ => Returned tt) (fun _ => Returned tt)
    {| DB_PATH := sstr "./chroma"; COLLECTION_NAME := sstr "datasets";
       EMBEDDING_MODEL := sstr "intfloat/e5-base-v2";
       NUM_DOCS := YScalar (SInt 5); CHUNKS_PER_DOC := YScalar (SInt 3) |}
    (Toy.client_of (lit "openai")) (lit "heat pumps") true fresh
  = (Returned tt,
     {| llm_trace :=
          [EvRequest OpenAI (lit "m")
             [user_message (build_prompt (lit "heat pumps") (lit "[]"))];
           EvPrintStructuredError (OtherError (lit "401"))];
        page := page fresh
                ++ [RenderAnswer (model_construct ResponseModel);
                    RenderEvidence (model_construct ResponseModel)] |}).
Proof.
  apply (answer_is_rendered Toy.env unit unit
           (fun _ _ _ _ _ _ => Returned tt) (fun r => Returned r)
           (fun _ => lit "[]") (fun _ => Returned tt) (fun _ => Returned tt)
           _ _ _ _ tt tt).
  - discriminate.
  - reflexivity.
  - reflexivity.
  - vm_compute. reflexivity.
  - reflexivity.
  - reflexivity.
Defined.

End AppSpec.
